(** * Socket based RPC implementation

    A shallow embedding of [src/runtime/rpc/rpc_socket_impl.cc]: the
    socket-backed channel, the client handshake of [RPCConnect], the two
    server-loop entry points and the [rpc.ReturnException] helper.

    The code runs against a kernel socket and a remote peer.  Both are
    modelled by a [world]: whether the name of the peer has an address,
    the bytes the peer delivers, a schedule saying how each primitive
    transfer behaves (short, complete or faulty), and the history of
    operations performed on the descriptor.  Objects that own the
    descriptor release it when they go: the scopes of the code are
    modelled with their destructors. *)

From Stdlib Require Import ZArith String Ascii List Lia Bool DecimalString.
From Stdlib.Strings Require Import Byte.
Import ListNotations.
Open Scope Z_scope.

(** ** Machine integers and their object representation *)

(** [static_cast<int>(z)]: wrap-around to 32 bits, two's complement. *)
Definition to_int (z : Z) : Z := (z + 2 ^ 31) mod 2 ^ 32 - 2 ^ 31.

(** Conversion to [size_t] (64 bits, unsigned). *)
Definition to_size_t (z : Z) : Z := z mod 2 ^ 64.

Definition INT_MAX : Z := 2 ^ 31 - 1.

(** [sizeof(int)]. *)
Definition sizeof_int : Z := 4.

Definition byte_of_Z (z : Z) : byte :=
  match Byte.of_N (Z.to_N (z mod 256)) with
  | Some b => b
  | None => x00
  end.

Definition Z_of_byte (b : byte) : Z := Z.of_N (Byte.to_N b).

(** The [n] low-order bytes of [z], least significant first. *)
Fixpoint le_bytes (n : nat) (z : Z) : list byte :=
  match n with
  | O => []
  | S n' => byte_of_Z z :: le_bytes n' (Z.shiftr z 8)
  end.

Fixpoint le_value (bs : list byte) : Z :=
  match bs with
  | [] => 0
  | b :: bs' => Z_of_byte b + 256 * le_value bs'
  end.

(** The bytes of an [int] object as [SendAll(&code, sizeof(code))] puts
    them on the wire (little-endian host). *)
Definition int_bytes (z : Z) : list byte := le_bytes 4 z.

(** The [int] read back from four received bytes. *)
Definition bytes_int (bs : list byte) : Z := to_int (le_value bs).

(** The bytes of a [uint64_t] length field. *)
Definition uint64_bytes (z : Z) : list byte := le_bytes 8 z.

(** ** Strings *)

(** [s.c_str()]: the characters of [s] followed by the terminating NUL. *)
Definition c_str (s : string) : list byte := list_byte_of_string s ++ [x00].

Definition is_nul (b : byte) : bool := Byte.eqb b x00.

(** What a callee that only receives a [const char*] sees of a buffer: the
    bytes before the first NUL. *)
Fixpoint until_nul (buf : list byte) : list byte :=
  match buf with
  | [] => []
  | b :: buf' => if is_nul b then [] else b :: until_nul buf'
  end.

(** The string a callee reads back from [s.c_str()]. *)
Definition c_string (s : string) : string :=
  string_of_list_byte (until_nul (c_str s)).

(** [os << port]: decimal rendering of an [int]. *)
Definition show_int (z : Z) : string := NilZero.string_of_int (Z.to_int z).

(** ** Errors *)

Inductive error : Type :=
| CheckFailed (what : string)   (* ICHECK / ICHECK_EQ failure *)
| Fatal (msg : string)          (* LOG(FATAL) << msg *)
| SocketError (where_ : string) (* support::Socket::Error(where) *)
| LengthError                   (* std::length_error from std::string::resize *)
| CastError (index : nat)       (* a failed args[i].cast<T>() *)
| EndOfStream                   (* an Endpoint met the end of the stream *)
| AddressError (name : string). (* support::SockAddr: no address for name *)

(** ** The kernel socket and the peer *)

Inductive sock_state : Type := Unused | Created | Connected | Closed.

(** How one primitive [send]/[recv] behaves: it fails, or it transfers at
    most [S n] bytes. *)
Inductive outcome : Type :=
| Fault
| Upto (n : nat).

Inductive event : Type :=
| EvCreate (fd : Z)
| EvConnect (url : string) (port : Z) (ok : bool)
| EvSend (bs : list byte)
| EvSendFault
| EvRecv (bs : list byte)
| EvRecvFault
| EvClose (fd : Z).

Record world : Type := mkWorld {
  w_resolves : bool;         (* whether the name of the peer has an address *)
  w_fd : Z;                  (* the descriptor of the connection *)
  w_state : sock_state;      (* what the kernel knows about it *)
  w_accepts : bool;          (* whether the peer accepts a connection *)
  w_check : option bool;     (* what the validity check of the socket answers *)
  w_inbox : list byte;       (* bytes the peer delivers, then end of stream *)
  w_script : list outcome;   (* behaviour of the coming transfers *)
  w_trace : list event       (* operations performed so far, oldest first *)
}.

Definition emit (e : event) (w : world) : world :=
  mkWorld (w_resolves w) (w_fd w) (w_state w) (w_accepts w) (w_check w)
          (w_inbox w) (w_script w) (w_trace w ++ [e]).

Definition set_state (st : sock_state) (w : world) : world :=
  mkWorld (w_resolves w) (w_fd w) st (w_accepts w) (w_check w)
          (w_inbox w) (w_script w) (w_trace w).

Definition set_script (sc : list outcome) (w : world) : world :=
  mkWorld (w_resolves w) (w_fd w) (w_state w) (w_accepts w) (w_check w)
          (w_inbox w) sc (w_trace w).

Definition set_inbox (ib : list byte) (w : world) : world :=
  mkWorld (w_resolves w) (w_fd w) (w_state w) (w_accepts w) (w_check w)
          ib (w_script w) (w_trace w).

(** ** Computations: state passing with exceptions *)

Definition M (A : Type) : Type := world -> world * (error + A).

Definition ret {A} (a : A) : M A := fun w => (w, inr a).

Definition raise {A} (e : error) : M A := fun w => (w, inl e).

Definition bind {A B} (m : M A) (k : A -> M B) : M B :=
  fun w =>
    match m w with
    | (w1, inr a) => k a w1
    | (w1, inl e) => (w1, inl e)
    end.

(** [try { m } catch (...) { h }]. *)
Definition try_catch {A} (m : M A) (h : error -> M A) : M A :=
  fun w =>
    match m w with
    | (w1, inr a) => (w1, inr a)
    | (w1, inl e) => h e w1
    end.

Notation "x <- m ;; k" := (bind m (fun x => k))
  (at level 61, m at next level, right associativity).
Notation "m ;; k" := (bind m (fun _ => k))
  (at level 61, right associativity).
Notation "' p <- m ;; k" := (bind m (fun p => k))
  (at level 61, p pattern, m at next level, right associativity).

(** An object that lives in the scope of [m]: when [m] raises, the stack is
    unwound and the destructor [dtor] of the object runs while the
    exception passes. *)
Definition unwinding {A} (dtor : M unit) (m : M A) : M A :=
  try_catch m (fun e => dtor ;; raise e).

(** A temporary that lives for the full expression [m]: its destructor
    [dtor] runs when [m] has returned, and also when [m] raises. *)
Definition with_temporary {A} (dtor : M unit) (m : M A) : M A :=
  a <- unwinding dtor m ;;
  dtor ;;
  ret a.

Definition ICHECK (cond : bool) (what : string) : M unit :=
  if cond then ret tt else raise (CheckFailed what).

Definition ICHECK_EQ (x y : Z) (what : string) : M unit :=
  if x =? y then ret tt else raise (CheckFailed what).

Definition LOG_FATAL {A} (msg : string) : M A := raise (Fatal msg).

(** ** support::TCPSocket *)

Definition INVALID_SOCKET : Z := -1.

Record TCPSocket : Type := mkSock { sockfd : Z }.

(** Modelled from the spec: [support::SockAddr] of support/socket.h, which
    is not among the sources: the "address, port" a connect is given (6),
    kept as the name and the port it was made from. *)
Record SockAddr : Type := mkAddr { addr_url : string; addr_port : Z }.

(** Modelled from the spec: the constructor of [support::SockAddr] of
    support/socket.h, [support::SockAddr addr(name, port)]: it makes the
    address of the "address, port" a connect is given (6), and raises when
    the name has no address; no socket is involved. *)
Definition SockAddr_of (name : string) (port : Z) : M SockAddr :=
  fun w =>
    if w_resolves w then (w, inr (mkAddr name port))
    else (w, inl (AddressError name)).

(** Modelled from the spec: [SockAddr::ss_family] of support/socket.h: the
    family of the address; the sockets of the model are the stream sockets
    of one family (AF_INET). *)
Definition ss_family (a : SockAddr) : Z := 2.

(** Modelled from the spec: [support::Socket::Error] of support/socket.h,
    which is not among the sources; it reports a transport fault by
    raising. *)
Definition Socket_Error {A} (where_ : string) : M A :=
  raise (SocketError where_).

(** The descriptor [s] holds is the connected descriptor of the world. *)
Definition usable (s : TCPSocket) (w : world) : bool :=
  (sockfd s =? w_fd w) &&
  match w_state w with Connected => true | _ => false end.

(** Modelled from the spec: [TCPSocket::Create] of support/socket.h; the
    kernel hands out the descriptor of the connection, or the call raises. *)
Definition TCPSocket_Create (s : TCPSocket) (af : Z) : M TCPSocket :=
  fun w =>
    match w_state w with
    | Unused =>
        if w_fd w =? INVALID_SOCKET then Socket_Error "Create" w
        else (emit (EvCreate (w_fd w)) (set_state Created w),
              inr (mkSock (w_fd w)))
    | _ => Socket_Error "Create" w
    end.

(** Modelled from the spec: [TCPSocket::Connect] of support/socket.h;
    answers whether the connection to the address was established. *)
Definition TCPSocket_Connect (s : TCPSocket) (a : SockAddr) : M bool :=
  fun w =>
    let ok := (sockfd s =? w_fd w) && w_accepts w &&
              match w_state w with Created => true | _ => false end in
    (emit (EvConnect (addr_url a) (addr_port a) ok)
          (if ok then set_state Connected w else w),
     inr ok).

(** Modelled from the spec: [TCPSocket::Send] of support/socket.h, one
    primitive send: "each call may transfer fewer bytes than requested",
    "a negative/error result signals a transport fault" (4.1).  The
    result is the number of bytes sent, or -1. *)
Definition TCPSocket_Send (s : TCPSocket) (data : list byte) : M Z :=
  fun w =>
    if usable s w then
      match w_script w with
      | Fault :: sc => (emit EvSendFault (set_script sc w), inr (-1))
      | Upto k :: sc =>
          let bs := firstn (S k) data in
          (emit (EvSend bs) (set_script sc w), inr (Z.of_nat (length bs)))
      | [] => (emit (EvSend data) w, inr (Z.of_nat (length data)))
      end
    else (emit EvSendFault w, inr (-1)).

(** Modelled from the spec: [TCPSocket::Recv] of support/socket.h, one
    primitive receive of at most [size] bytes: possibly short, 0 at the
    end of the peer's stream, -1 on a transport fault (4.1). *)
Definition TCPSocket_Recv (s : TCPSocket) (size : Z) : M (Z * list byte) :=
  fun w =>
    if usable s w then
      match w_script w with
      | Fault :: sc => (emit EvRecvFault (set_script sc w), inr (-1, []))
      | Upto k :: sc =>
          let bs := firstn (Nat.min (S k) (Z.to_nat size)) (w_inbox w) in
          (emit (EvRecv bs)
                (set_inbox (skipn (length bs) (w_inbox w)) (set_script sc w)),
           inr (Z.of_nat (length bs), bs))
      | [] =>
          let bs := firstn (Z.to_nat size) (w_inbox w) in
          (emit (EvRecv bs) (set_inbox (skipn (length bs) (w_inbox w)) w),
           inr (Z.of_nat (length bs), bs))
      end
    else (emit EvRecvFault w, inr (-1, [])).

(** Modelled from the spec: the loop of [TCPSocket::SendAll] of
    support/socket.h: "looping until the exact byte count is satisfied or
    an error ... occurs" (4.1).  [buf] is what remains to be sent and
    [ndone] the count so far; every primitive send of a non-empty buffer
    transfers at least one byte, so [length buf] rounds suffice. *)
Fixpoint SendAll_loop (fuel : nat) (s : TCPSocket) (buf : list byte)
    (ndone : Z) : M Z :=
  match fuel with
  | O => ret ndone
  | S fuel' =>
      match buf with
      | [] => ret ndone
      | _ :: _ =>
          n <- TCPSocket_Send s buf ;;
          if n =? -1 then Socket_Error "SendAll"
          else SendAll_loop fuel' s (skipn (Z.to_nat n) buf) (ndone + n)
      end
  end.

Definition TCPSocket_SendAll (s : TCPSocket) (data : list byte) : M Z :=
  SendAll_loop (length data) s data 0.

(** Modelled from the spec: the loop of [TCPSocket::RecvAll] of
    support/socket.h: receive until [len] bytes have arrived, the peer's
    stream ends (a receive of 0 bytes) or a fault occurs (4.1).  [acc] is
    what has been received so far. *)
Fixpoint RecvAll_loop (fuel : nat) (s : TCPSocket) (len : Z)
    (acc : list byte) : M (list byte) :=
  match fuel with
  | O => ret acc
  | S fuel' =>
      if Z.of_nat (length acc) <? len then
        '(n, bs) <- TCPSocket_Recv s (len - Z.of_nat (length acc)) ;;
        if n =? -1 then Socket_Error "RecvAll"
        else if n =? 0 then ret acc
        else RecvAll_loop fuel' s len (acc ++ bs)
      else ret acc
  end.

(** The count [RecvAll] returns, with the buffer it filled. *)
Definition TCPSocket_RecvAll (s : TCPSocket) (len : Z) : M (Z * list byte) :=
  acc <- RecvAll_loop (Z.to_nat len) s len [] ;;
  ret (Z.of_nat (length acc), acc).

(** Modelled from the spec: [TCPSocket::BadSocket] of support/socket.h:
    the socket "is already invalid" (4.1); the check itself can raise
    ("BadSocket can throw"). *)
Definition TCPSocket_BadSocket (s : TCPSocket) : M bool :=
  fun w =>
    if sockfd s =? INVALID_SOCKET then (w, inr true)
    else match w_check w with
         | None => Socket_Error "GetSockError" w
         | Some bad => (w, inr bad)
         end.

(** Modelled from the spec: [TCPSocket::Close] of support/socket.h:
    releases the descriptor and invalidates the handle; closing an invalid
    handle raises. *)
Definition TCPSocket_Close (s : TCPSocket) : M TCPSocket :=
  fun w =>
    if sockfd s =? INVALID_SOCKET then Socket_Error "Socket::Close" w
    else
      (emit (EvClose (sockfd s))
            (if sockfd s =? w_fd w then set_state Closed w else w),
       inr (mkSock INVALID_SOCKET)).

(** ** Values crossing the FFI boundary *)

(** [ffi::Function]: a handle on a callable. *)
Record Function : Type := mkFunction { fn_id : Z }.

Inductive Any : Type :=
| AnyNone
| AnyInt (z : Z)
| AnyBool (b : bool)
| AnyStr (s : string)
| AnyFunc (f : Function).

Definition PackedArgs : Type := list Any.

(** [args[i]]. *)
Definition arg (args : PackedArgs) (i : nat) : Any := nth i args AnyNone.

(** [a.as<int64_t>()]. *)
Definition as_int64 (a : Any) : option Z :=
  match a with
  | AnyInt z => Some z
  | _ => None
  end.

(** [args[i].cast<tvm::ffi::Function>()]. *)
Definition cast_Function (args : PackedArgs) (i : nat) : M Function :=
  match arg args i with
  | AnyFunc f => ret f
  | _ => raise (CastError i)
  end.

(** [args[i].cast<std::string>()]. *)
Definition cast_string (args : PackedArgs) (i : nat) : M string :=
  match arg args i with
  | AnyStr s => ret s
  | _ => raise (CastError i)
  end.

(** [args[i].cast<int>()]: an integer is narrowed to [int], a boolean counts
    as 0 or 1. *)
Definition cast_int (args : PackedArgs) (i : nat) : M Z :=
  match arg args i with
  | AnyInt z => ret (to_int z)
  | AnyBool b => ret (if b then 1 else 0)
  | _ => raise (CastError i)
  end.

(** [args[i].cast<bool>()]: an integer counts as true unless it is 0. *)
Definition cast_bool (args : PackedArgs) (i : nat) : M bool :=
  match arg args i with
  | AnyBool b => ret b
  | AnyInt z => ret (negb (z =? 0))
  | _ => raise (CastError i)
  end.

(** ** Channels *)

(** [class SockChannel final : public RPCChannel]. *)
Record SockChannel : Type := mkSockChannel { sock_ : TCPSocket }.

(** [CallbackChannel(fsend, frecv)] of rpc_channel.h: the pair of
    procedures it wraps. *)
Record CallbackChannel : Type :=
  mkCallbackChannel { fsend_ : Function; frecv_ : Function }.

(** [std::unique_ptr<RPCChannel>]: one of the two implementations. *)
Inductive RPCChannel : Type :=
| make_SockChannel (c : SockChannel)
| make_CallbackChannel (c : CallbackChannel).

(** [SockChannel::~SockChannel]. *)
Definition SockChannel_dtor (c : SockChannel) : M unit :=
  try_catch
    (bad <- TCPSocket_BadSocket (sock_ c) ;;
     if negb bad then (TCPSocket_Close (sock_ c) ;; ret tt) else ret tt)
    (fun _ => ret tt).

(** [SockChannel::Send]. *)
Definition SockChannel_Send (c : SockChannel) (data : list byte) : M Z :=
  n <- TCPSocket_Send (sock_ c) data ;;
  (if n =? -1 then Socket_Error "SockChannel::Send" else ret tt) ;;
  ret (to_size_t n).

(** [SockChannel::Recv]: the count and the bytes put into the buffer. *)
Definition SockChannel_Recv (c : SockChannel) (size : Z)
    : M (Z * list byte) :=
  '(n, bs) <- TCPSocket_Recv (sock_ c) size ;;
  (if n =? -1 then Socket_Error "SockChannel::Recv" else ret tt) ;;
  ret (to_size_t n, bs).

(** ** Endpoints and sessions *)

Record RPCEndpoint : Type := mkEndpoint {
  channel_ : RPCChannel;
  name_ : string;
  remote_key_ : string
}.

(** Modelled from the spec: [RPCEndpoint::Create] of rpc_endpoint.cc, which
    is not among the sources: "construct an Endpoint over the transport
    with local and remote keys recorded" (4.2). *)
Definition RPCEndpoint_Create (channel : RPCChannel) (name remote_key : string)
    : RPCEndpoint :=
  mkEndpoint channel name remote_key.

(** Modelled from the spec: the destructor of [CallbackChannel] of
    rpc_channel.h, which is not among the sources: the channel "wraps two
    externally supplied procedures" (4.1); it holds no descriptor, and
    letting the procedures go leaves the socket alone. *)
Definition CallbackChannel_dtor (c : CallbackChannel) : M unit := ret tt.

(** [std::unique_ptr<RPCChannel>::~unique_ptr]: the destructor of the
    implementation it holds. *)
Definition RPCChannel_dtor (channel : RPCChannel) : M unit :=
  match channel with
  | make_SockChannel c => SockChannel_dtor c
  | make_CallbackChannel c => CallbackChannel_dtor c
  end.

(** Modelled from the spec: [RPCEndpoint::~RPCEndpoint] of rpc_endpoint.cc,
    which is not among the sources, run when the last
    [std::shared_ptr<RPCEndpoint>] goes: the Endpoint "owns its Channel
    (1:1, exclusive)", and the Channel is "destroyed when the Endpoint is
    torn down" (3). *)
Definition RPCEndpoint_dtor (endpt : RPCEndpoint) : M unit :=
  RPCChannel_dtor (channel_ endpt).

(** [CreateClientSession(endpt)]. *)
Inductive RPCSession : Type :=
| CreateClientSession (endpt : RPCEndpoint).

(** [CreateRPCSessionModule(sess)]. *)
Inductive RPCModule : Type :=
| CreateRPCSessionModule (sess : RPCSession).

(** Modelled from the spec: how the Endpoint of rpc_endpoint.cc (not among
    the sources) reads an exact number of bytes from its socket channel:
    "the caller is responsible for looping until the exact byte count is
    satisfied or an error/EOF occurs. A return value of 0 ... signals
    orderly peer shutdown; a negative/error result signals a transport
    fault, both of which must map to a terminal error for the owning
    Endpoint" (4.1).  [acc] is what has arrived so far; every round that
    goes on has received at least one byte, so [Z.to_nat size] rounds
    suffice. *)
Fixpoint Endpoint_ReadExact (fuel : nat) (c : SockChannel) (size : Z)
    (acc : list byte) : M (list byte) :=
  match fuel with
  | O => ret acc
  | S fuel' =>
      if Z.of_nat (length acc) <? size then
        '(n, bs) <- SockChannel_Recv c (size - Z.of_nat (length acc)) ;;
        if n =? 0 then raise EndOfStream
        else Endpoint_ReadExact fuel' c size (acc ++ bs)
      else ret acc
  end.

(** ** The handler of [rpc.ReturnException] *)

(** [class SimpleSockHandler : public dmlc::Stream]. *)
Record SimpleSockHandler : Type := mkHandler { handler_sock_ : TCPSocket }.

(** [SimpleSockHandler::Read]. *)
Definition SimpleSockHandler_Read (h : SimpleSockHandler) (size : Z)
    : M (Z * list byte) :=
  '(n, bs) <- TCPSocket_Recv (handler_sock_ h) size ;;
  ret (to_size_t n, bs).

(** [SimpleSockHandler::Write]. *)
Definition SimpleSockHandler_Write (h : SimpleSockHandler) (data : list byte)
    : M Z :=
  n <- TCPSocket_Send (handler_sock_ h) data ;;
  ret (to_size_t n).

(** ** What travelled *)

(** The bytes the peer has received, in order. *)
Fixpoint sent_bytes (t : list event) : list byte :=
  match t with
  | [] => []
  | EvSend bs :: t' => bs ++ sent_bytes t'
  | _ :: t' => sent_bytes t'
  end.

(** The bytes the program has received, in order. *)
Fixpoint received_bytes (t : list event) : list byte :=
  match t with
  | [] => []
  | EvRecv bs :: t' => bs ++ received_bytes t'
  | _ :: t' => received_bytes t'
  end.

(** No transfer of the schedule fails. *)
Definition no_fault (sc : list outcome) : bool :=
  forallb (fun o => match o with Fault => false | Upto _ => true end) sc.

(** Every transfer of the schedule moves at least [n] bytes at once. *)
Definition whole_transfers (n : nat) (sc : list outcome) : bool :=
  forallb (fun o => match o with
                    | Fault => false
                    | Upto k => (n <=? S k)%nat
                    end) sc.

(** A computation only adds to the history of the descriptor. *)
Definition appends {A} (m : M A) : Prop :=
  forall w, exists evs, w_trace (fst (m w)) = w_trace w ++ evs.

(** ** A sample peer, for the examples *)

(** The value 0xff271. *)
Definition sample_magic : Z := 1045105.

(** A session initialisation that does nothing. *)
Definition sample_init : RPCEndpoint -> PackedArgs -> M unit :=
  fun _ _ => ret tt.


(** A server loop that reads one byte from a socket-backed channel and is
    over. *)
Definition sample_loop : RPCEndpoint -> M unit :=
  fun endpt =>
    match channel_ endpt with
    | make_SockChannel c => SockChannel_Recv c 1 ;; ret tt
    | make_CallbackChannel _ => ret tt
    end.

(** The text of the address of the sample listener. *)
Definition sample_AsString : SockAddr -> string :=
  fun _ => "127.0.0.1:9090"%string.

(** A listener on descriptor 3, whose name has an address, that will
    deliver [inbox]; the first two transfers are short (at most one byte,
    then at most three). *)
Definition sample_listener (inbox : list byte) : world :=
  mkWorld true 3 Unused true (Some false) inbox [Upto 0; Upto 2] [].

(** Descriptor 3, already connected, with the given schedule. *)
Definition sample_connection (inbox : list byte) (script : list outcome)
    : world :=
  mkWorld true 3 Connected true (Some false) inbox script [].

(** ** The functions of rpc_socket_impl.cc *)

Section RPCSocketImpl.

(** [kRPCMagic] of rpc_endpoint.h, which is not among the sources. *)
Variable kRPCMagic : Z.

(** [RPCEndpoint::InitRemoteSession] and [RPCEndpoint::ServerLoop] of
    rpc_endpoint.cc, which is not among the sources. *)
Variable InitRemoteSession : RPCEndpoint -> PackedArgs -> M unit.
Variable ServerLoop : RPCEndpoint -> M unit.

(** The marker that opens an exception frame (rpc_reference.h, not among
    the sources). *)
Variable exception_marker : list byte.

(** [SockAddr::AsString] of support/socket.h, which is not among the
    sources: the text of an address. *)
Variable AsString : SockAddr -> string.

(** [RPCConnect]. *)
Definition RPCConnect (url : string) (port : Z) (key : string)
    (enable_logging : bool) (init_seq : PackedArgs) : M RPCEndpoint :=
  let sock := mkSock INVALID_SOCKET in
  addr <- SockAddr_of (c_string url) port ;;
  sock <- TCPSocket_Create sock (ss_family addr) ;;
  connected <- TCPSocket_Connect sock addr ;;
  ICHECK connected ("Connect to " ++ AsString addr ++ " failed") ;;
  (* hand shake *)
  let code := kRPCMagic in
  let keylen := to_int (Z.of_nat (String.length key)) in
  n <- TCPSocket_SendAll sock (int_bytes code) ;;
  ICHECK_EQ n sizeof_int "sock.SendAll(&code, sizeof(code)) == sizeof(code)" ;;
  n <- TCPSocket_SendAll sock (int_bytes keylen) ;;
  ICHECK_EQ n sizeof_int
            "sock.SendAll(&keylen, sizeof(keylen)) == sizeof(keylen)" ;;
  (if negb (keylen =? 0) then
     n <- TCPSocket_SendAll sock
            (firstn (Z.to_nat (to_size_t keylen)) (c_str key)) ;;
     ICHECK_EQ n (to_size_t keylen)
               "sock.SendAll(key.c_str(), keylen) == keylen"
   else ret tt) ;;
  '(n, buf) <- TCPSocket_RecvAll sock sizeof_int ;;
  ICHECK_EQ n sizeof_int "sock.RecvAll(&code, sizeof(code)) == sizeof(code)" ;;
  let code := bytes_int buf in
  (if code =? kRPCMagic + 2 then
     TCPSocket_Close sock ;;
     LOG_FATAL ("URL " ++ url ++ ":" ++ show_int port ++
                " cannot find server that matches key=" ++ key)
   else if code =? kRPCMagic + 1 then
     TCPSocket_Close sock ;;
     LOG_FATAL ("URL " ++ url ++ ":" ++ show_int port ++
                " server already have key=" ++ key)
   else if negb (code =? kRPCMagic) then
     TCPSocket_Close sock ;;
     LOG_FATAL ("URL " ++ url ++ ":" ++ show_int port ++
                " is not TVM RPC server")
   else ret tt) ;;
  '(n, buf) <- TCPSocket_RecvAll sock sizeof_int ;;
  ICHECK_EQ n sizeof_int
            "sock.RecvAll(&keylen, sizeof(keylen)) == sizeof(keylen)" ;;
  let keylen := bytes_int buf in
  remote_key <-
    (if negb (keylen =? 0) then
       (* remote_key.resize(keylen) *)
       (if to_size_t keylen <=? 2 ^ 63 - 1 then ret tt
        else raise LengthError) ;;
       '(n, buf) <- TCPSocket_RecvAll sock (to_size_t keylen) ;;
       ICHECK_EQ n (to_size_t keylen)
                 "sock.RecvAll(&remote_key[0], keylen) == keylen" ;;
       ret (string_of_list_byte buf)
     else ret EmptyString) ;;
  let channel := make_SockChannel (mkSockChannel sock) in
  let endpt := RPCEndpoint_Create channel key remote_key in
  (* endpt is the only reference to the Endpoint: an exception of
     InitRemoteSession releases it on its way out *)
  unwinding (RPCEndpoint_dtor endpt) (InitRemoteSession endpt init_seq) ;;
  ret endpt.

(** [RPCClientConnect]. *)
Definition RPCClientConnect (url : string) (port : Z) (key : string)
    (enable_logging : bool) (init_seq : PackedArgs) : M RPCModule :=
  endpt <- RPCConnect url port ("client:" ++ key) enable_logging init_seq ;;
  ret (CreateRPCSessionModule (CreateClientSession endpt)).

(** [RPCServerLoop(int sockfd)].  The Endpoint is a temporary of the one
    statement: it is released when [ServerLoop] is over. *)
Definition RPCServerLoop_sockfd (sockfd : Z) : M unit :=
  let sock := mkSock sockfd in
  let endpt :=
    RPCEndpoint_Create (make_SockChannel (mkSockChannel sock))
                       "SockServerLoop" "" in
  with_temporary (RPCEndpoint_dtor endpt) (ServerLoop endpt).

(** [RPCServerLoop(ffi::Function fsend, ffi::Function frecv)]. *)
Definition RPCServerLoop_callbacks (fsend frecv : Function) : M unit :=
  let endpt :=
    RPCEndpoint_Create (make_CallbackChannel (mkCallbackChannel fsend frecv))
                       "SockServerLoop" "" in
  with_temporary (RPCEndpoint_dtor endpt) (ServerLoop endpt).

(** The packed function registered as ["rpc.Connect"]. *)
Definition rpc_Connect (args : PackedArgs) : M RPCModule :=
  url <- cast_string args 0 ;;
  port <- cast_int args 1 ;;
  key <- cast_string args 2 ;;
  enable_logging <- cast_bool args 3 ;;
  RPCClientConnect url port key enable_logging (skipn 4 args).

(** The packed function registered as ["rpc.ServerLoop"]. *)
Definition rpc_ServerLoop (args : PackedArgs) : M unit :=
  match as_int64 (arg args 0) with
  | Some v => RPCServerLoop_sockfd (to_int v)
  | None =>
      fsend <- cast_Function args 0 ;;
      frecv <- cast_Function args 1 ;;
      RPCServerLoop_callbacks fsend frecv
  end.

(** The one server loop both entry points are said to run (4.4, 6): an
    Endpoint over the given channel, which runs the blocking loop and is
    "destroyed when the connection ends or errors fatally" (3), its Channel
    with it. *)
Definition serve_spec (channel : RPCChannel) : M unit :=
  let endpt := RPCEndpoint_Create channel "SockServerLoop" "" in
  fun w =>
    let (w1, r) := ServerLoop endpt w in
    (fst (RPCChannel_dtor channel w1), r).

(** Modelled from the spec: [RPCReference::ReturnException] of
    rpc_reference.h, which is not among the sources: it "writes a single
    exception frame (marker + length-prefixed text) directly" (4.5).  It
    is handed a [const char*], so the text is what precedes the first NUL. *)
Definition ReturnException (msg : list byte) (channel : SimpleSockHandler)
    : M unit :=
  let text := until_nul msg in
  SimpleSockHandler_Write channel exception_marker ;;
  SimpleSockHandler_Write channel (uint64_bytes (Z.of_nat (length text))) ;;
  SimpleSockHandler_Write channel text ;;
  ret tt.

(** The function registered as ["rpc.ReturnException"]. *)
Definition rpc_ReturnException (sockfd : Z) (msg : string) : M unit :=
  let handler := mkHandler (mkSock sockfd) in
  ReturnException (c_str msg) handler.

(** The exception frame of a text. *)
Definition exception_frame (text : list byte) : list byte :=
  exception_marker ++ uint64_bytes (Z.of_nat (length text)) ++ text.

Fixpoint starts_with (p bs : list byte) : bool :=
  match p, bs with
  | [], _ => true
  | a :: p', b :: bs' => Byte.eqb a b && starts_with p' bs'
  | _ :: _, [] => false
  end.

(** Modelled from the spec: the receiving side, which "must recognize this
    marker ... and convert it into a raised error carrying the exact
    message text" (4.5): the message it decodes from the bytes of one
    frame, if they are one. *)
Definition decode_exception (wire : list byte) : option string :=
  if starts_with exception_marker wire then
    let rest := skipn (length exception_marker) wire in
    if (length rest <? 8)%nat then None
    else
      let len := Z.to_nat (le_value (firstn 8 rest)) in
      let body := skipn 8 rest in
      if (length body =? len)%nat then Some (string_of_list_byte body)
      else None
  else None.

(** ** Vocabulary of the statements *)

(** The bytes a client of identity [key] owes the server in the handshake:
    [magic:int32], [keylen:int32], [key:bytes[keylen]] (4.2). *)
Definition handshake_request (key : string) : list byte :=
  int_bytes kRPCMagic ++ int_bytes (Z.of_nat (String.length key)) ++
  list_byte_of_string key.

(** A fresh descriptor, a peer whose name has an address and that accepts
    the connection, and a transport on which no transfer fails. *)
Definition reachable (w : world) : bool :=
  match w_state w with Unused => true | _ => false end &&
  negb (w_fd w =? INVALID_SOCKET) && w_accepts w && no_fault (w_script w) &&
  w_resolves w.

(** [io w w' evs]: [w'] is [w] after the transfers [evs], none of which
    changed the state of the descriptor. *)
Record io (w w' : world) (evs : list event) : Prop := mk_io {
  io_fd : w_fd w' = w_fd w;
  io_state : w_state w' = w_state w;
  io_accepts : w_accepts w' = w_accepts w;
  io_check : w_check w' = w_check w;
  io_inbox : w_inbox w = received_bytes evs ++ w_inbox w';
  io_script : exists k, w_script w' = skipn k (w_script w);
  io_trace : w_trace w' = w_trace w ++ evs
}.

(** [xfer w w' sent recvd]: from [w] to [w'] the bytes [sent] went out and
    the bytes [recvd] came in, and the descriptor kept its state. *)
Record xfer (w w' : world) (sent recvd : list byte) : Prop := mk_xfer {
  xf_fd : w_fd w' = w_fd w;
  xf_state : w_state w' = w_state w;
  xf_accepts : w_accepts w' = w_accepts w;
  xf_check : w_check w' = w_check w;
  xf_inbox : w_inbox w = recvd ++ w_inbox w';
  xf_sent : sent_bytes (w_trace w') = sent_bytes (w_trace w) ++ sent;
  xf_recvd : received_bytes (w_trace w') =
             received_bytes (w_trace w) ++ recvd
}.

(** The world once its descriptor has been closed. *)
Definition closed (w : world) : world :=
  emit (EvClose (w_fd w)) (set_state Closed w).

(** [w'] is [w] after connecting and the transfers [evs]. *)
Record connected_after (url : string) (port : Z) (w w' : world)
    (evs : list event) : Prop := mk_connected_after {
  ca_fd : w_fd w' = w_fd w;
  ca_state : w_state w' = Connected;
  ca_accepts : w_accepts w' = w_accepts w;
  ca_check : w_check w' = w_check w;
  ca_inbox : w_inbox w = received_bytes evs ++ w_inbox w';
  ca_script : no_fault (w_script w') = true;
  ca_trace : w_trace w' =
             w_trace w ++
             EvCreate (w_fd w) :: EvConnect url port true :: evs
}.

(** * Properties *)

(** ** Running computations *)

Lemma bind_run {A B} (m : M A) (k : A -> M B) w w1 a :
  m w = (w1, inr a) -> bind m k w = k a w1.
Proof. intros H. unfold bind. rewrite H. reflexivity. Qed.

Lemma bind_fail {A B} (m : M A) (k : A -> M B) w w1 e :
  m w = (w1, inl e) -> bind m k w = (w1, inl e).
Proof. intros H. unfold bind. rewrite H. reflexivity. Qed.

(** ** What a successful run of transfers leaves behind *)

Lemma sent_bytes_app t1 t2 :
  sent_bytes (t1 ++ t2) = sent_bytes t1 ++ sent_bytes t2.
Proof.
  induction t1 as [| e t1 IH]; simpl; [reflexivity |].
  destruct e; rewrite IH; try reflexivity. now rewrite app_assoc.
Qed.

Lemma received_bytes_app t1 t2 :
  received_bytes (t1 ++ t2) = received_bytes t1 ++ received_bytes t2.
Proof.
  induction t1 as [| e t1 IH]; simpl; [reflexivity |].
  destruct e; rewrite IH; try reflexivity. now rewrite app_assoc.
Qed.

Lemma received_bytes_sends chunks : received_bytes (map EvSend chunks) = [].
Proof. induction chunks; simpl; congruence. Qed.

Lemma io_refl w : io w w [].
Proof.
  constructor; try reflexivity.
  - exists 0%nat. reflexivity.
  - now rewrite app_nil_r.
Qed.

Lemma io_trans w w1 w2 e1 e2 :
  io w w1 e1 -> io w1 w2 e2 -> io w w2 (e1 ++ e2).
Proof.
  intros [F1 S1 A1 C1 I1 [k1 K1] T1] [F2 S2 A2 C2 I2 [k2 K2] T2].
  constructor; try congruence.
  - rewrite received_bytes_app, <- app_assoc, <- I2. exact I1.
  - exists (k1 + k2)%nat. rewrite K2, K1, skipn_skipn. f_equal. lia.
  - rewrite T2, T1. now rewrite app_assoc.
Qed.

Lemma no_fault_skipn k sc : no_fault sc = true -> no_fault (skipn k sc) = true.
Proof.
  revert sc. induction k as [| k IH]; intros [| o sc]; simpl; auto.
  intros H. apply andb_true_iff in H. apply IH, H.
Qed.

Lemma io_usable s w w' evs :
  io w w' evs -> usable s w = true -> usable s w' = true.
Proof. intros H U. unfold usable in *. now rewrite (io_fd _ _ _ H), (io_state _ _ _ H). Qed.

Lemma io_no_fault w w' evs :
  io w w' evs -> no_fault (w_script w) = true -> no_fault (w_script w') = true.
Proof.
  intros H N. destruct (io_script _ _ _ H) as [k ->]. now apply no_fault_skipn.
Qed.

(** ** One primitive transfer on a reliable connection *)

Lemma firstn_length_firstn {A} (m : nat) (l : list A) :
  firstn (length (firstn m l)) l = firstn m l.
Proof.
  rewrite length_firstn.
  destruct (Nat.le_ge_cases m (length l)) as [L | L].
  - now rewrite Nat.min_l by exact L.
  - rewrite Nat.min_r by exact L. rewrite firstn_all.
    symmetry. now apply firstn_all2.
Qed.

Lemma Send_ok s data w :
  usable s w = true -> no_fault (w_script w) = true -> data <> [] ->
  exists (n : nat) w',
    (1 <= n <= length data)%nat /\
    TCPSocket_Send s data w = (w', inr (Z.of_nat n)) /\
    io w w' [EvSend (firstn n data)].
Proof.
  intros U N D. unfold TCPSocket_Send. rewrite U.
  destruct data as [| b data]; [congruence |].
  destruct (w_script w) as [| [| k] sc] eqn:E.
  - exists (length (b :: data)), (emit (EvSend (b :: data)) w).
    split; [simpl; lia |]. split; [reflexivity |].
    rewrite firstn_all. constructor; simpl; try reflexivity.
    exists 0%nat. reflexivity.
  - simpl in N. discriminate.
  - exists (length (firstn (S k) (b :: data))),
           (emit (EvSend (firstn (S k) (b :: data))) (set_script sc w)).
    split.
    { rewrite length_firstn. simpl length. lia. }
    split; [reflexivity |].
    rewrite firstn_length_firstn.
    constructor; simpl; try reflexivity.
    exists 1%nat. rewrite E. reflexivity.
Qed.

Lemma Recv_ok s size w :
  usable s w = true -> no_fault (w_script w) = true ->
  0 < size -> w_inbox w <> [] ->
  exists (n : nat) w',
    (1 <= n <= Z.to_nat size)%nat /\ (n <= length (w_inbox w))%nat /\
    TCPSocket_Recv s size w =
      (w', inr (Z.of_nat n, firstn n (w_inbox w))) /\
    w_inbox w' = skipn n (w_inbox w) /\
    io w w' [EvRecv (firstn n (w_inbox w))].
Proof.
  intros U N Hs Hi. unfold TCPSocket_Recv. rewrite U.
  assert (Hgen : forall (m : nat) w0,
             (1 <= m <= Z.to_nat size)%nat ->
             w_fd w0 = w_fd w -> w_state w0 = w_state w ->
             w_accepts w0 = w_accepts w -> w_check w0 = w_check w ->
             w_inbox w0 = w_inbox w -> w_trace w0 = w_trace w ->
             (exists k, w_script w0 = skipn k (w_script w)) ->
             let bs := firstn m (w_inbox w) in
             let w' := emit (EvRecv bs)
                            (set_inbox (skipn (length bs) (w_inbox w)) w0) in
             (1 <= length bs <= Z.to_nat size)%nat /\
             (length bs <= length (w_inbox w))%nat /\
             firstn (length bs) (w_inbox w) = bs /\
             w_inbox w' = skipn (length bs) (w_inbox w) /\
             io w w' [EvRecv bs]).
  { intros m w0 Hm F S A C I T K bs w'.
    assert (Hl : length bs = Nat.min m (length (w_inbox w)))
      by (unfold bs; apply length_firstn).
    assert (Hpos : (1 <= length (w_inbox w))%nat).
    { destruct (w_inbox w); [congruence | simpl; lia]. }
    assert (Hb : firstn (length bs) (w_inbox w) = bs)
      by apply firstn_length_firstn.
    split; [lia |]. split; [lia |]. split; [exact Hb |].
    split; [reflexivity |].
    constructor; simpl; try assumption.
    - rewrite app_nil_r. rewrite <- Hb at 1. symmetry. apply firstn_skipn.
    - now rewrite T. }
  destruct (w_script w) as [| [| k] sc] eqn:E.
  - destruct (Hgen (Z.to_nat size) w) as (H1 & H2 & H3 & H4 & H5);
      try reflexivity; try lia.
    { exists 0%nat. exact E. }
    eexists _, _. split; [exact H1 |]. split; [exact H2 |].
    rewrite H3. split; [reflexivity |]. split; [exact H4 | exact H5].
  - simpl in N. discriminate.
  - destruct (Hgen (Nat.min (S k) (Z.to_nat size)) (set_script sc w))
      as (H1 & H2 & H3 & H4 & H5); try reflexivity; try lia.
    { exists 1%nat. reflexivity. }
    eexists _, _. split; [exact H1 |]. split; [exact H2 |].
    rewrite H3. split; [reflexivity |]. split; [exact H4 | exact H5].
Qed.

(** ** The retry loops *)

Lemma SendAll_loop_ok s fuel : forall buf ndone w,
  (length buf <= fuel)%nat ->
  usable s w = true -> no_fault (w_script w) = true ->
  exists w' chunks,
    SendAll_loop fuel s buf ndone w =
      (w', inr (ndone + Z.of_nat (length buf))) /\
    io w w' (map EvSend chunks) /\ concat chunks = buf /\
    Forall (fun c => c <> []) chunks.
Proof.
  induction fuel as [| fuel IH]; intros buf ndone w L U N.
  - destruct buf; [| simpl in L; lia].
    exists w, []. simpl. rewrite Z.add_0_r.
    split; [reflexivity |]. split; [apply io_refl |]. split; [reflexivity |].
    constructor.
  - destruct buf as [| b buf].
    + exists w, []. simpl. rewrite Z.add_0_r.
      split; [reflexivity |]. split; [apply io_refl |].
      split; [reflexivity |]. constructor.
    + destruct (Send_ok s (b :: buf) w U N) as (n & w1 & Hn & Hrun & Hio);
        [discriminate |].
      cbn [SendAll_loop]. rewrite (bind_run _ _ _ _ _ Hrun).
      replace (Z.of_nat n =? -1) with false by (symmetry; apply Z.eqb_neq; lia).
      rewrite Nat2Z.id.
      destruct (IH (skipn n (b :: buf)) (ndone + Z.of_nat n) w1)
        as (w' & chunks & Hrun' & Hio' & Hc & Hne).
      { rewrite length_skipn. simpl length in *. lia. }
      { eapply io_usable; eauto. }
      { eapply io_no_fault; eauto. }
      exists w', (firstn n (b :: buf) :: chunks).
      split.
      { rewrite Hrun'. f_equal. f_equal. rewrite length_skipn.
        simpl length in *. lia. }
      split.
      { change (map EvSend (firstn n (b :: buf) :: chunks)) with
            ([EvSend (firstn n (b :: buf))] ++ map EvSend chunks).
        eapply io_trans; eauto. }
      split.
      { simpl concat. rewrite Hc. apply firstn_skipn. }
      constructor; [| exact Hne].
      destruct n; [lia | discriminate].
Qed.

Lemma SendAll_ok s data w :
  usable s w = true -> no_fault (w_script w) = true ->
  exists w' chunks,
    TCPSocket_SendAll s data w = (w', inr (Z.of_nat (length data))) /\
    io w w' (map EvSend chunks) /\ concat chunks = data /\
    Forall (fun c => c <> []) chunks.
Proof.
  intros U N. unfold TCPSocket_SendAll.
  destruct (SendAll_loop_ok s (length data) data 0 w (le_n _) U N)
    as (w' & chunks & H & ?). rewrite Z.add_0_l in H. eauto.
Qed.

Lemma firstn_add {A} (m k : nat) (l : list A) :
  firstn (m + k) l = firstn m l ++ firstn k (skipn m l).
Proof.
  revert l. induction m as [| m IH]; intros l; [reflexivity |].
  destruct l as [| a l]; simpl.
  - now rewrite firstn_nil.
  - now rewrite IH.
Qed.

Lemma RecvAll_loop_ok s len fuel : forall acc w,
  let need := (Z.to_nat len - length acc)%nat in
  (need <= fuel)%nat -> (need <= length (w_inbox w))%nat ->
  usable s w = true -> no_fault (w_script w) = true ->
  exists w' chunks,
    RecvAll_loop fuel s len acc w =
      (w', inr (acc ++ firstn need (w_inbox w))) /\
    w_inbox w' = skipn need (w_inbox w) /\
    io w w' (map EvRecv chunks) /\
    concat chunks = firstn need (w_inbox w) /\
    Forall (fun c => c <> []) chunks.
Proof.
  induction fuel as [| fuel IH]; intros acc w need L I U N.
  - replace need with 0%nat by lia.
    exists w, []. simpl. rewrite app_nil_r.
    split; [reflexivity |]. split; [reflexivity |]. split; [apply io_refl |].
    split; [reflexivity |]. constructor.
  - cbn [RecvAll_loop].
    destruct (Z.of_nat (length acc) <? len) eqn:E.
    + apply Z.ltb_lt in E.
      assert (Hneed : (1 <= need)%nat) by (unfold need; lia).
      destruct (Recv_ok s (len - Z.of_nat (length acc)) w U N)
        as (n & w1 & Hn & Hn' & Hrun & Hib & Hio); [lia | |].
      { destruct (w_inbox w); [simpl in I; lia | discriminate]. }
      rewrite (bind_run _ _ _ _ _ Hrun).
      replace (Z.of_nat n =? -1) with false by (symmetry; apply Z.eqb_neq; lia).
      replace (Z.of_nat n =? 0) with false by (symmetry; apply Z.eqb_neq; lia).
      assert (Hlen : length (firstn n (w_inbox w)) = n)
        by (rewrite length_firstn; lia).
      assert (Hneed' : (Z.to_nat len - length (acc ++ firstn n (w_inbox w)) =
                        need - n)%nat).
      { rewrite length_app, Hlen. unfold need. lia. }
      destruct (IH (acc ++ firstn n (w_inbox w)) w1)
        as (w' & chunks & Hrun' & Hib' & Hio' & Hc & Hne).
      { rewrite Hneed'. lia. }
      { rewrite Hneed', Hib, length_skipn. lia. }
      { eapply io_usable; eauto. }
      { eapply io_no_fault; eauto. }
      rewrite Hneed', Hib in *.
      assert (Hsplit : firstn need (w_inbox w) =
                       firstn n (w_inbox w) ++
                       firstn (need - n) (skipn n (w_inbox w))).
      { rewrite <- firstn_add. f_equal. lia. }
      exists w', (firstn n (w_inbox w) :: chunks).
      split; [rewrite Hrun', Hsplit; now rewrite app_assoc |].
      split.
      { rewrite Hib', skipn_skipn. f_equal. lia. }
      split.
      { change (map EvRecv (firstn n (w_inbox w) :: chunks)) with
            ([EvRecv (firstn n (w_inbox w))] ++ map EvRecv chunks).
        eapply io_trans; eauto. }
      split; [simpl concat; now rewrite Hc, Hsplit |].
      constructor; [| exact Hne].
      intros Hnil. rewrite Hnil in Hlen. simpl in Hlen. lia.
    + apply Z.ltb_ge in E. replace need with 0%nat by (unfold need; lia).
      exists w, []. simpl. rewrite app_nil_r.
      split; [reflexivity |]. split; [reflexivity |]. split; [apply io_refl |].
      split; [reflexivity |]. constructor.
Qed.

Lemma RecvAll_ok s len w :
  0 <= len -> (Z.to_nat len <= length (w_inbox w))%nat ->
  usable s w = true -> no_fault (w_script w) = true ->
  exists w' chunks,
    TCPSocket_RecvAll s len w =
      (w', inr (len, firstn (Z.to_nat len) (w_inbox w))) /\
    w_inbox w' = skipn (Z.to_nat len) (w_inbox w) /\
    io w w' (map EvRecv chunks) /\
    concat chunks = firstn (Z.to_nat len) (w_inbox w) /\
    Forall (fun c => c <> []) chunks.
Proof.
  intros Hl I U N. unfold TCPSocket_RecvAll.
  destruct (RecvAll_loop_ok s len (Z.to_nat len) [] w)
    as (w' & chunks & Hrun & Hib & Hio & Hc & Hne); simpl length;
    try rewrite Nat.sub_0_r; auto.
  rewrite Nat.sub_0_r in *. simpl app in Hrun.
  exists w', chunks. rewrite (bind_run _ _ _ _ _ Hrun). unfold ret.
  rewrite length_firstn, Nat.min_l by exact I. rewrite Z2Nat.id by exact Hl.
  auto.
Qed.

(** ** Integers and strings on the wire *)

Lemma to_int_small z : 0 <= z <= INT_MAX -> to_int z = z.
Proof.
  unfold to_int, INT_MAX. intros H.
  rewrite Z.mod_small by lia. lia.
Qed.

Lemma to_size_t_small z : 0 <= z <= INT_MAX -> to_size_t z = z.
Proof.
  unfold to_size_t, INT_MAX. intros H. apply Z.mod_small. lia.
Qed.

Lemma length_list_byte_of_string s :
  length (list_byte_of_string s) = String.length s.
Proof.
  unfold list_byte_of_string. rewrite length_map.
  induction s as [| a s IH]; simpl; congruence.
Qed.

Lemma firstn_c_str key :
  firstn (String.length key) (c_str key) = list_byte_of_string key.
Proof.
  unfold c_str. rewrite <- (length_list_byte_of_string key).
  rewrite firstn_app, firstn_all, Nat.sub_diag. simpl. apply app_nil_r.
Qed.

Lemma ICHECK_EQ_refl x what w : ICHECK_EQ x x what w = (w, inr tt).
Proof. unfold ICHECK_EQ. now rewrite Z.eqb_refl. Qed.

Lemma string_append_inj p a b : (p ++ a = p ++ b)%string -> a = b.
Proof. induction p as [| c p IH]; simpl; intros H; [exact H |]. inversion H. auto. Qed.

(** ** Every operation only adds to the history *)

Lemma appends_ret {A} (a : A) : appends (ret a).
Proof. intros w. exists []. simpl. now rewrite app_nil_r. Qed.

Lemma appends_raise {A} e : appends (@raise A e).
Proof. intros w. exists []. simpl. now rewrite app_nil_r. Qed.

Lemma appends_bind {A B} (m : M A) (k : A -> M B) :
  appends m -> (forall a, appends (k a)) -> appends (bind m k).
Proof.
  intros Hm Hk w. unfold bind. destruct (Hm w) as [e1 H1].
  destruct (m w) as [w1 [e | a]]; simpl in *.
  - eauto.
  - destruct (Hk a w1) as [e2 H2]. exists (e1 ++ e2).
    now rewrite H2, H1, app_assoc.
Qed.

Lemma appends_ICHECK b what : appends (ICHECK b what).
Proof. destruct b; [apply appends_ret | apply appends_raise]. Qed.

Lemma appends_ICHECK_EQ x y what : appends (ICHECK_EQ x y what).
Proof.
  unfold ICHECK_EQ. destruct (x =? y); [apply appends_ret | apply appends_raise].
Qed.

Lemma appends_Send s data : appends (TCPSocket_Send s data).
Proof.
  intros w. unfold TCPSocket_Send.
  destruct (usable s w); [destruct (w_script w) as [| [| k] sc] |];
    eexists; reflexivity.
Qed.

Lemma appends_Recv s size : appends (TCPSocket_Recv s size).
Proof.
  intros w. unfold TCPSocket_Recv.
  destruct (usable s w); [destruct (w_script w) as [| [| k] sc] |];
    eexists; reflexivity.
Qed.

Lemma appends_Close s : appends (TCPSocket_Close s).
Proof.
  intros w. unfold TCPSocket_Close.
  destruct (sockfd s =? INVALID_SOCKET).
  - apply appends_raise.
  - destruct (sockfd s =? w_fd w); eexists; reflexivity.
Qed.

Lemma appends_RecvAll s len : appends (TCPSocket_RecvAll s len).
Proof.
  unfold TCPSocket_RecvAll. apply appends_bind; [| intros; apply appends_ret].
  generalize (@nil byte). induction (Z.to_nat len) as [| fuel IH]; intros acc.
  - apply appends_ret.
  - cbn [RecvAll_loop]. destruct (Z.of_nat (length acc) <? len);
      [| apply appends_ret].
    apply appends_bind; [apply appends_Recv |]. intros [n bs].
    destruct (n =? -1); [apply appends_raise |].
    destruct (n =? 0); [apply appends_ret | apply IH].
Qed.

(** ** Destructors and scopes *)

Lemma appends_try_catch {A} (m : M A) (h : error -> M A) :
  appends m -> (forall e, appends (h e)) -> appends (try_catch m h).
Proof.
  intros Hm Hh w. unfold try_catch. destruct (Hm w) as [e1 H1].
  destruct (m w) as [w1 [e | a]]; simpl in *.
  - destruct (Hh e w1) as [e2 H2]. exists (e1 ++ e2).
    now rewrite H2, H1, app_assoc.
  - eauto.
Qed.

Lemma appends_unwinding {A} (dtor : M unit) (m : M A) :
  appends dtor -> appends m -> appends (unwinding dtor m).
Proof.
  intros Hd Hm. apply appends_try_catch; [exact Hm |].
  intros e. apply appends_bind; [exact Hd | intros; apply appends_raise].
Qed.

Lemma appends_BadSocket s : appends (TCPSocket_BadSocket s).
Proof.
  intros w. unfold TCPSocket_BadSocket.
  destruct (sockfd s =? INVALID_SOCKET); [apply appends_ret |].
  destruct (w_check w); [apply appends_ret | apply appends_raise].
Qed.

Lemma appends_RPCEndpoint_dtor endpt : appends (RPCEndpoint_dtor endpt).
Proof.
  unfold RPCEndpoint_dtor, RPCChannel_dtor.
  destruct (channel_ endpt) as [c | c]; [| apply appends_ret].
  unfold SockChannel_dtor. apply appends_try_catch.
  - apply appends_bind; [apply appends_BadSocket |].
    intros bad. destruct (negb bad); [| apply appends_ret].
    apply appends_bind; [apply appends_Close | intros; apply appends_ret].
  - intros e. apply appends_ret.
Qed.

(** A destructor of a channel returns: it lets no error out. *)
Lemma RPCChannel_dtor_returns channel w :
  snd (RPCChannel_dtor channel w) = inr tt.
Proof.
  destruct channel as [c | c]; [| reflexivity].
  unfold RPCChannel_dtor, SockChannel_dtor, try_catch.
  match goal with |- context [match ?x with _ => _ end] => destruct x end.
  destruct s as [e | []]; reflexivity.
Qed.

(** The destructor of a socket-backed channel over the descriptor of the
    connection, when the validity check finds the socket good. *)
Lemma SockChannel_dtor_closes c w :
  sockfd (sock_ c) = w_fd w -> w_fd w <> INVALID_SOCKET ->
  w_check w = Some false ->
  SockChannel_dtor c w = (closed w, inr tt).
Proof.
  intros Hfd Hv Hc.
  unfold SockChannel_dtor, try_catch, bind, TCPSocket_BadSocket,
    TCPSocket_Close, closed.
  apply Z.eqb_neq in Hv. rewrite Hfd, Hv, Hc. cbn [negb].
  rewrite Z.eqb_refl. reflexivity.
Qed.

Lemma unwinding_run {A} (dtor : M unit) (m : M A) w :
  (forall w1, snd (dtor w1) = inr tt) ->
  unwinding dtor m w =
    match m w with
    | (w1, inr a) => (w1, inr a)
    | (w1, inl e) => (fst (dtor w1), inl e)
    end.
Proof.
  intros Hd. unfold unwinding, try_catch, bind.
  destruct (m w) as [w1 [e | a]]; [| reflexivity].
  specialize (Hd w1). destruct (dtor w1) as [w2 [e' | []]];
    [discriminate Hd | reflexivity].
Qed.

Lemma unwinding_inv {A} (dtor : M unit) (m : M A) w w' a :
  unwinding dtor m w = (w', inr a) -> m w = (w', inr a).
Proof.
  unfold unwinding, try_catch, bind.
  destruct (m w) as [w1 [e | a1]]; [| auto].
  destruct (dtor w1) as [w2 [e' | []]]; discriminate.
Qed.

Lemma with_temporary_run {A} (dtor : M unit) (m : M A) w :
  (forall w1, snd (dtor w1) = inr tt) ->
  with_temporary dtor m w = (fst (dtor (fst (m w))), snd (m w)).
Proof.
  intros Hd. unfold with_temporary. unfold bind at 1.
  rewrite (unwinding_run dtor m w Hd).
  destruct (m w) as [w1 [e | a]]; cbn [fst snd]; [reflexivity |].
  unfold bind. specialize (Hd w1).
  destruct (dtor w1) as [w2 [e' | []]]; [discriminate Hd | reflexivity].
Qed.

(** ** The handshake of [RPCConnect] *)

Lemma reachable_cases w :
  reachable w = true ->
  w_state w = Unused /\ w_fd w <> INVALID_SOCKET /\ w_accepts w = true /\
  no_fault (w_script w) = true /\ w_resolves w = true.
Proof.
  unfold reachable. intros H.
  repeat (apply andb_true_iff in H; destruct H as [H ?]).
  destruct (w_state w); try discriminate.
  repeat split; auto. apply Z.eqb_neq. now apply negb_true_iff.
Qed.

Lemma to_int_range z : - 2 ^ 31 <= to_int z <= INT_MAX.
Proof.
  unfold to_int, INT_MAX.
  pose proof (Z.mod_pos_bound (z + 2 ^ 31) (2 ^ 32) ltac:(lia)). lia.
Qed.

Lemma firstn_length_app {A} (l1 l2 : list A) n :
  n = length l1 -> firstn n (l1 ++ l2) = l1.
Proof.
  intros ->. rewrite firstn_app, firstn_all, Nat.sub_diag. simpl.
  apply app_nil_r.
Qed.

Lemma skipn_length_app {A} (l1 l2 : list A) n :
  n = length l1 -> skipn n (l1 ++ l2) = l2.
Proof.
  intros ->. rewrite skipn_app, skipn_all, Nat.sub_diag. reflexivity.
Qed.

(** Connecting, sending the request and reading the four bytes of the
    response code, on a reachable listener; [K] is what the function does
    next. *)
Lemma handshake_prefix url port key w c rest :
  reachable w = true ->
  Z.of_nat (String.length key) <= INT_MAX ->
  w_inbox w = c ++ rest -> length c = 4%nat ->
  exists w4 Sm Sl Sk R,
    connected_after (c_string url) port w w4
      (map EvSend Sm ++ map EvSend Sl ++ map EvSend Sk ++ map EvRecv R) /\
    concat Sm = int_bytes kRPCMagic /\
    concat Sl = int_bytes (Z.of_nat (String.length key)) /\
    concat Sk = list_byte_of_string key /\ concat R = c /\
    Forall (fun x => x <> []) (Sm ++ Sl ++ Sk ++ R) /\
    w_inbox w4 = rest /\
    forall B (K : TCPSocket -> Z * list byte -> M B),
    (addr <- SockAddr_of (c_string url) port ;;
     sock <- TCPSocket_Create (mkSock INVALID_SOCKET) (ss_family addr) ;;
     connected <- TCPSocket_Connect sock addr ;;
     ICHECK connected ("Connect to " ++ AsString addr ++ " failed") ;;
     n <- TCPSocket_SendAll sock (int_bytes kRPCMagic) ;;
     ICHECK_EQ n sizeof_int
               "sock.SendAll(&code, sizeof(code)) == sizeof(code)" ;;
     n <- TCPSocket_SendAll sock
            (int_bytes (to_int (Z.of_nat (String.length key)))) ;;
     ICHECK_EQ n sizeof_int
               "sock.SendAll(&keylen, sizeof(keylen)) == sizeof(keylen)" ;;
     (if negb (to_int (Z.of_nat (String.length key)) =? 0) then
        n <- TCPSocket_SendAll sock
               (firstn (Z.to_nat (to_size_t
                                    (to_int (Z.of_nat (String.length key)))))
                       (c_str key)) ;;
        ICHECK_EQ n (to_size_t (to_int (Z.of_nat (String.length key))))
                  "sock.SendAll(key.c_str(), keylen) == keylen"
      else ret tt) ;;
     p <- TCPSocket_RecvAll sock sizeof_int ;;
     K sock p) w
    = K (mkSock (w_fd w)) (sizeof_int, c) w4.
Proof.
  intros HR HK HI HC.
  destruct (reachable_cases w HR) as (Hst & Hfd & Hacc & Hnf & Hres).
  set (sock := mkSock (w_fd w)).
  set (addr := mkAddr (c_string url) port).
  assert (HAddr : SockAddr_of (c_string url) port w = (w, inr addr)).
  { unfold SockAddr_of. now rewrite Hres. }
  set (wc := emit (EvCreate (w_fd w)) (set_state Created w)).
  set (wk := emit (EvConnect (c_string url) port true) (set_state Connected wc)).
  assert (HCreate :
            TCPSocket_Create (mkSock INVALID_SOCKET) (ss_family addr) w =
              (wc, inr sock)).
  { unfold TCPSocket_Create. rewrite Hst.
    apply Z.eqb_neq in Hfd. now rewrite Hfd. }
  assert (HConnect :
            TCPSocket_Connect sock addr wc = (wk, inr true)).
  { unfold TCPSocket_Connect. simpl. now rewrite Z.eqb_refl, Hacc. }
  assert (Uk : usable sock wk = true).
  { unfold usable. simpl. now rewrite Z.eqb_refl. }
  (* magic *)
  destruct (SendAll_ok sock (int_bytes kRPCMagic) wk Uk Hnf)
    as (w1 & S1 & Hrun1 & Hio1 & Hc1 & Hne1).
  change (Z.of_nat (length (int_bytes kRPCMagic))) with sizeof_int in Hrun1.
  (* keylen *)
  destruct (SendAll_ok sock (int_bytes (Z.of_nat (String.length key))) w1)
    as (w2 & S2 & Hrun2 & Hio2 & Hc2 & Hne2);
    [eapply io_usable; eauto | eapply io_no_fault; eauto |].
  change (Z.of_nat (length (int_bytes (Z.of_nat (String.length key)))))
    with sizeof_int in Hrun2.
  pose proof (io_trans _ _ _ _ _ Hio1 Hio2) as Hio12.
  (* key *)
  assert (Hkey : exists w3 S3,
             (if negb (Z.of_nat (String.length key) =? 0) then
                n <- TCPSocket_SendAll sock (list_byte_of_string key) ;;
                ICHECK_EQ n (Z.of_nat (String.length key))
                          "sock.SendAll(key.c_str(), keylen) == keylen"
              else ret tt) w2 = (w3, inr tt) /\
             io w2 w3 (map EvSend S3) /\
             concat S3 = list_byte_of_string key /\
             Forall (fun x => x <> []) S3).
  { destruct (Z.of_nat (String.length key) =? 0) eqn:Ek; cbn [negb].
    - exists w2, []. split; [reflexivity |]. split; [apply io_refl |].
      split; [| constructor].
      apply Z.eqb_eq in Ek. destruct key; [reflexivity | simpl in Ek; lia].
    - destruct (SendAll_ok sock (list_byte_of_string key) w2)
        as (w3 & S3 & Hrun3 & Hio3 & Hc3 & Hne3);
        [eapply io_usable; eauto | eapply io_no_fault; eauto |].
      exists w3, S3. rewrite (bind_run _ _ _ _ _ Hrun3).
      rewrite length_list_byte_of_string, ICHECK_EQ_refl. auto. }
  destruct Hkey as (w3 & S3 & Hrun3 & Hio3 & Hc3 & Hne3).
  pose proof (io_trans _ _ _ _ _ Hio12 Hio3) as Hio123.
  (* the response code *)
  assert (Hib3 : w_inbox w3 = c ++ rest).
  { pose proof (io_inbox _ _ _ Hio123) as Hx.
    rewrite !received_bytes_app, !received_bytes_sends in Hx.
    change (w_inbox wk) with (w_inbox w) in Hx. simpl in Hx.
    rewrite <- Hx. exact HI. }
  destruct (RecvAll_ok sock sizeof_int w3)
    as (w4 & R & Hrun4 & Hib4 & Hio4 & Hc4 & Hne4).
  { unfold sizeof_int. lia. }
  { rewrite Hib3, length_app, HC. unfold sizeof_int. simpl. lia. }
  { eapply io_usable; eauto. }
  { eapply io_no_fault; eauto. }
  assert (H4 : Z.to_nat sizeof_int = length c) by (rewrite HC; reflexivity).
  rewrite Hib3, (firstn_length_app c rest _ H4) in *.
  rewrite (skipn_length_app c rest _ H4) in Hib4.
  pose proof (io_trans _ _ _ _ _ Hio123 Hio4) as Hio.
  rewrite <- !app_assoc in Hio.
  exists w4, S1, S2, S3, R.
  split.
  { destruct Hio as [F St A C I Sc T]. constructor.
    - rewrite F. reflexivity.
    - rewrite St. reflexivity.
    - rewrite A. reflexivity.
    - rewrite C. reflexivity.
    - rewrite <- I. reflexivity.
    - destruct Sc as [k ->]. apply no_fault_skipn. exact Hnf.
    - rewrite T. simpl. rewrite <- !app_assoc. reflexivity. }
  split; [exact Hc1 |]. split; [exact Hc2 |]. split; [exact Hc3 |].
  split; [exact Hc4 |].
  split; [repeat (apply Forall_app; split); assumption |].
  split; [exact Hib4 |].
  intros B K.
  rewrite (bind_run _ _ _ _ _ HAddr).
  rewrite (bind_run _ _ _ _ _ HCreate), (bind_run _ _ _ _ _ HConnect).
  rewrite (bind_run _ _ wk wk tt) by reflexivity.
  rewrite (to_int_small (Z.of_nat (String.length key))) by lia.
  rewrite (to_size_t_small (Z.of_nat (String.length key))) by lia.
  rewrite Nat2Z.id, firstn_c_str.
  rewrite (bind_run _ _ _ _ _ Hrun1), (bind_run _ _ _ _ _ (ICHECK_EQ_refl _ _ _)).
  rewrite (bind_run _ _ _ _ _ Hrun2), (bind_run _ _ _ _ _ (ICHECK_EQ_refl _ _ _)).
  rewrite (bind_run _ _ _ _ _ Hrun3), (bind_run _ _ _ _ _ Hrun4).
  reflexivity.
Qed.


Lemma connected_after_io url port w w1 w2 e1 e2 :
  connected_after url port w w1 e1 -> io w1 w2 e2 ->
  connected_after url port w w2 (e1 ++ e2).
Proof.
  intros [F St A C I Sc T] [F2 S2 A2 C2 I2 [k K2] T2].
  constructor; try congruence.
  - rewrite received_bytes_app, <- app_assoc, <- I2. exact I.
  - rewrite K2. now apply no_fault_skipn.
  - rewrite T2, T, <- app_assoc. reflexivity.
Qed.

Lemma connected_after_usable url port w w' evs :
  connected_after url port w w' evs ->
  usable (mkSock (w_fd w)) w' = true.
Proof.
  intros H. unfold usable. simpl.
  now rewrite (ca_fd _ _ _ _ _ H), (ca_state _ _ _ _ _ H), Z.eqb_refl.
Qed.

Lemma Close_run w w' :
  w_fd w <> INVALID_SOCKET -> w_fd w' = w_fd w ->
  TCPSocket_Close (mkSock (w_fd w)) w' = (closed w', inr (mkSock INVALID_SOCKET)).
Proof.
  intros Hfd F. unfold TCPSocket_Close, closed. simpl.
  apply Z.eqb_neq in Hfd. rewrite Hfd, F, Z.eqb_refl. reflexivity.
Qed.

(** A response code other than [kRPCMagic]: the socket is closed and the
    failure chosen by the code is raised. *)
Lemma connect_rejected url port key enable_logging init_seq w c rest :
  reachable w = true ->
  Z.of_nat (String.length key) <= INT_MAX ->
  w_inbox w = c ++ rest -> length c = 4%nat ->
  bytes_int c <> kRPCMagic ->
  exists w4 Sm Sl Sk R,
    connected_after (c_string url) port w w4
      (map EvSend Sm ++ map EvSend Sl ++ map EvSend Sk ++ map EvRecv R) /\
    concat Sm = int_bytes kRPCMagic /\
    concat Sl = int_bytes (Z.of_nat (String.length key)) /\
    concat Sk = list_byte_of_string key /\ concat R = c /\
    Forall (fun x => x <> []) (Sm ++ Sl ++ Sk ++ R) /\
    RPCConnect url port key enable_logging init_seq w =
      (closed w4,
       inl (Fatal
              (if bytes_int c =? kRPCMagic + 2 then
                 "URL " ++ url ++ ":" ++ show_int port ++
                 " cannot find server that matches key=" ++ key
               else if bytes_int c =? kRPCMagic + 1 then
                 "URL " ++ url ++ ":" ++ show_int port ++
                 " server already have key=" ++ key
               else
                 "URL " ++ url ++ ":" ++ show_int port ++
                 " is not TVM RPC server"))).
Proof.
  intros HR HK HI HC Hcode.
  destruct (handshake_prefix url port key w c rest HR HK HI HC)
    as (w4 & Sm & Sl & Sk & R & Hca & HSm & HSl & HSk & HRc & Hne & Hib & Hrun).
  destruct (reachable_cases w HR) as (_ & Hfd & _).
  exists w4, Sm, Sl, Sk, R. repeat (split; [assumption |]).
  unfold RPCConnect. cbv zeta. rewrite Hrun.
  rewrite (bind_run _ _ _ _ _ (ICHECK_EQ_refl _ _ _)).
  pose proof (Close_run w w4 Hfd (ca_fd _ _ _ _ _ Hca)) as Hclose.
  destruct (bytes_int c =? kRPCMagic + 2).
  { erewrite bind_fail; [reflexivity |].
    rewrite (bind_run _ _ _ _ _ Hclose). reflexivity. }
  destruct (bytes_int c =? kRPCMagic + 1).
  { erewrite bind_fail; [reflexivity |].
    rewrite (bind_run _ _ _ _ _ Hclose). reflexivity. }
  apply Z.eqb_neq in Hcode. rewrite Hcode. cbn [negb].
  erewrite bind_fail; [reflexivity |].
  rewrite (bind_run _ _ _ _ _ Hclose). reflexivity.
Qed.

(** The response code [kRPCMagic] followed by a key length and that many
    key bytes: the Endpoint records both keys and the initial arguments are
    forwarded. *)
Lemma connect_accepted url port key enable_logging init_seq w c l rk rest :
  reachable w = true ->
  Z.of_nat (String.length key) <= INT_MAX ->
  w_inbox w = c ++ l ++ rk ++ rest ->
  length c = 4%nat -> length l = 4%nat ->
  bytes_int c = kRPCMagic -> bytes_int l = Z.of_nat (length rk) ->
  exists w6 Sm Sl Sk Rc Rl Rk,
    connected_after (c_string url) port w w6
      (map EvSend Sm ++ map EvSend Sl ++ map EvSend Sk ++
       map EvRecv Rc ++ map EvRecv Rl ++ map EvRecv Rk) /\
    concat Sm = int_bytes kRPCMagic /\
    concat Sl = int_bytes (Z.of_nat (String.length key)) /\
    concat Sk = list_byte_of_string key /\
    concat Rc = c /\ concat Rl = l /\ concat Rk = rk /\
    Forall (fun x => x <> []) (Sm ++ Sl ++ Sk ++ Rc ++ Rl ++ Rk) /\
    w_inbox w6 = rest /\
    RPCConnect url port key enable_logging init_seq w =
      (let endpt :=
         RPCEndpoint_Create
           (make_SockChannel (mkSockChannel (mkSock (w_fd w))))
           key (string_of_list_byte rk) in
       unwinding (RPCEndpoint_dtor endpt) (InitRemoteSession endpt init_seq) ;;
       ret endpt) w6.
Proof.
  intros HR HK HI HC HL Hcode Hlen.
  destruct (handshake_prefix url port key w c (l ++ rk ++ rest) HR HK HI HC)
    as (w4 & Sm & Sl & Sk & Rc & Hca & HSm & HSl & HSk & HRc & Hne & Hib & Hrun).
  pose proof (connected_after_usable _ _ _ _ _ Hca) as U4.
  (* the length of the remote key *)
  destruct (RecvAll_ok (mkSock (w_fd w)) sizeof_int w4)
    as (w5 & Rl & Hrun5 & Hib5 & Hio5 & Hc5 & Hne5).
  { unfold sizeof_int. lia. }
  { rewrite Hib, length_app, HL. unfold sizeof_int. simpl. lia. }
  { exact U4. }
  { exact (ca_script _ _ _ _ _ Hca). }
  assert (H4 : Z.to_nat sizeof_int = length l) by (rewrite HL; reflexivity).
  rewrite Hib, (firstn_length_app l _ _ H4) in *.
  rewrite (skipn_length_app l _ _ H4) in Hib5.
  (* the remote key *)
  pose proof (to_int_range (le_value l)) as Hrange.
  fold (bytes_int l) in Hrange. rewrite Hlen in Hrange.
  assert (Hkey : exists w6 Rk,
             (if negb (Z.of_nat (length rk) =? 0) then
                (if to_size_t (Z.of_nat (length rk)) <=? 2 ^ 63 - 1 then ret tt
                 else raise LengthError) ;;
                '(n, buf) <- TCPSocket_RecvAll (mkSock (w_fd w))
                               (to_size_t (Z.of_nat (length rk))) ;;
                ICHECK_EQ n (to_size_t (Z.of_nat (length rk)))
                          "sock.RecvAll(&remote_key[0], keylen) == keylen" ;;
                ret (string_of_list_byte buf)
              else ret EmptyString) w5 = (w6, inr (string_of_list_byte rk)) /\
             io w5 w6 (map EvRecv Rk) /\ concat Rk = rk /\
             Forall (fun x => x <> []) Rk /\ w_inbox w6 = rest).
  { destruct (Z.of_nat (length rk) =? 0) eqn:Ek; cbn [negb].
    - apply Z.eqb_eq in Ek. destruct rk; [| simpl in Ek; lia].
      exists w5, []. split; [reflexivity |]. split; [apply io_refl |].
      split; [reflexivity |]. split; [constructor | exact Hib5].
    - rewrite (to_size_t_small (Z.of_nat (length rk))) by lia.
      replace (Z.of_nat (length rk) <=? 2 ^ 63 - 1) with true
        by (symmetry; apply Z.leb_le; unfold INT_MAX in Hrange; lia).
      rewrite (bind_run _ _ w5 w5 tt) by reflexivity.
      destruct (RecvAll_ok (mkSock (w_fd w)) (Z.of_nat (length rk)) w5)
        as (w6 & Rk & Hrun6 & Hib6 & Hio6 & Hc6 & Hne6).
      { lia. }
      { rewrite Hib5, Nat2Z.id, length_app. lia. }
      { eapply io_usable; eauto. }
      { eapply io_no_fault; eauto. exact (ca_script _ _ _ _ _ Hca). }
      rewrite Hib5, Nat2Z.id, (firstn_length_app rk rest _ eq_refl) in *.
      rewrite (skipn_length_app rk rest _ eq_refl) in Hib6.
      exists w6, Rk. rewrite (bind_run _ _ _ _ _ Hrun6).
      rewrite (bind_run _ _ _ _ _ (ICHECK_EQ_refl _ _ _)). unfold ret. auto. }
  destruct Hkey as (w6 & Rk & Hrun6 & Hio6 & Hc6 & Hne6 & Hib6).
  exists w6, Sm, Sl, Sk, Rc, Rl, Rk.
  split.
  { pose proof (connected_after_io _ _ _ _ _ _ _ Hca
                  (io_trans _ _ _ _ _ Hio5 Hio6)) as H.
    rewrite <- !app_assoc in H. exact H. }
  repeat (split; [assumption |]).
  split.
  { apply Forall_app in Hne as [H1 Hne]. apply Forall_app in Hne as [H2 Hne].
    apply Forall_app in Hne as [H3 Hne].
    repeat (apply Forall_app; split); assumption. }
  split; [exact Hib6 |].
  unfold RPCConnect. cbv zeta. rewrite Hrun.
  rewrite (bind_run _ _ _ _ _ (ICHECK_EQ_refl _ _ _)).
  rewrite Hcode.
  replace (kRPCMagic =? kRPCMagic + 2) with false
    by (symmetry; apply Z.eqb_neq; lia).
  replace (kRPCMagic =? kRPCMagic + 1) with false
    by (symmetry; apply Z.eqb_neq; lia).
  rewrite Z.eqb_refl. cbn [negb].
  rewrite (bind_run _ _ w4 w4 tt) by reflexivity.
  rewrite (bind_run _ _ _ _ _ Hrun5).
  rewrite (bind_run _ _ _ _ _ (ICHECK_EQ_refl _ _ _)).
  rewrite Hlen.
  rewrite (bind_run _ _ _ _ _ Hrun6).
  reflexivity.
Qed.

(** How [RPCConnect] ends once the Endpoint exists: it returns the Endpoint
    when the session initialisation returns, and when that raises, the
    Endpoint is torn down and the error passes. *)
Lemma init_outcome endpt init_seq w6 :
  (forall w7,
     InitRemoteSession endpt init_seq w6 = (w7, inr tt) ->
     (unwinding (RPCEndpoint_dtor endpt) (InitRemoteSession endpt init_seq) ;;
      ret endpt) w6 = (w7, inr endpt)) /\
  (forall w7 e,
     InitRemoteSession endpt init_seq w6 = (w7, inl e) ->
     (unwinding (RPCEndpoint_dtor endpt) (InitRemoteSession endpt init_seq) ;;
      ret endpt) w6 = (fst (RPCEndpoint_dtor endpt w7), inl e)).
Proof.
  split; intros w7; [| intros e]; intros H; unfold bind at 1;
    rewrite unwinding_run, H
      by (intros; apply RPCChannel_dtor_returns); reflexivity.
Qed.

Ltac appends_step :=
  first
    [ apply appends_ret | apply appends_raise | apply appends_ICHECK_EQ
    | apply appends_ICHECK | apply appends_RecvAll | apply appends_Close
    | apply appends_RPCEndpoint_dtor
    | apply appends_unwinding
    | match goal with
      | H : forall e a, appends (InitRemoteSession e a) |- _ => apply H
      end
    | apply appends_bind; [| intros ?]
    | match goal with
      | |- appends (if ?b then _ else _) => destruct b
      | |- appends (let '(_, _) := ?p in _) => destruct p
      end ].

(** The history of a connect on a reachable listener that answers with
    four bytes: the request goes out field by field, then the response
    code is read, then whatever follows. *)
Lemma connect_trace url port key enable_logging init_seq w c rest :
  reachable w = true ->
  Z.of_nat (String.length key) <= INT_MAX ->
  w_inbox w = c ++ rest -> length c = 4%nat ->
  (forall e a, appends (InitRemoteSession e a)) ->
  exists Sm Sl Sk R evs,
    w_trace (fst (RPCConnect url port key enable_logging init_seq w)) =
      w_trace w ++
      EvCreate (w_fd w) :: EvConnect (c_string url) port true ::
      map EvSend Sm ++ map EvSend Sl ++ map EvSend Sk ++
      map EvRecv R ++ evs /\
    concat Sm = int_bytes kRPCMagic /\
    concat Sl = int_bytes (Z.of_nat (String.length key)) /\
    concat Sk = list_byte_of_string key /\ concat R = c /\
    Forall (fun x => x <> []) (Sm ++ Sl ++ Sk ++ R).
Proof.
  intros HR HK HI HC HInit.
  destruct (handshake_prefix url port key w c rest HR HK HI HC)
    as (w4 & Sm & Sl & Sk & R & Hca & HSm & HSl & HSk & HRc & Hne & Hib & Hrun).
  unfold RPCConnect. cbv zeta. rewrite Hrun.
  match goal with
  | |- context [fst (?m w4)] => assert (Ha : appends m)
  end.
  { unfold LOG_FATAL. repeat appends_step. }
  destruct (Ha w4) as [evs He].
  exists Sm, Sl, Sk, R, evs.
  split; [| auto].
  rewrite He, (ca_trace _ _ _ _ _ Hca). rewrite <- !app_assoc. simpl.
  rewrite <- !app_assoc. reflexivity.
Qed.

Lemma concat_nil_nonempty {A} (L : list (list A)) :
  concat L = [] -> Forall (fun x => x <> []) L -> L = [].
Proof.
  destruct L as [| x L]; [reflexivity |]. simpl. intros H F.
  inversion F as [| ? ? Hx _]. destruct x; [congruence | discriminate].
Qed.

(** ** The claims about [RPCConnect] *)

(** C1: when the server answers the handshake with the code MAGIC, followed
    by the length of its key and that many key bytes, [RPCConnect] reads
    the four bytes of the length and then exactly the key bytes, builds an
    Endpoint over the socket that records the local key and the received
    remote key, forwards [init_seq] to [InitRemoteSession] and, when that
    returns, returns that Endpoint; the peer key of the Endpoint is the key
    the server sent.  When [InitRemoteSession] raises, the Endpoint is torn
    down, its channel with it, and the error passes to the caller. *)
Theorem C1_connect_accepted url port key enable_logging init_seq
    w c l rk rest :
  reachable w = true ->
  Z.of_nat (String.length key) <= INT_MAX ->
  w_inbox w = c ++ l ++ rk ++ rest ->
  length c = 4%nat -> length l = 4%nat ->
  bytes_int c = kRPCMagic -> bytes_int l = Z.of_nat (length rk) ->
  exists w6 Sm Sl Sk Rc Rl Rk endpt,
    connected_after (c_string url) port w w6
      (map EvSend Sm ++ map EvSend Sl ++ map EvSend Sk ++
       map EvRecv Rc ++ map EvRecv Rl ++ map EvRecv Rk) /\
    concat Rc = c /\ concat Rl = l /\ concat Rk = rk /\
    w_inbox w6 = rest /\
    channel_ endpt = make_SockChannel (mkSockChannel (mkSock (w_fd w))) /\
    name_ endpt = key /\
    remote_key_ endpt = string_of_list_byte rk /\
    (forall w7, InitRemoteSession endpt init_seq w6 = (w7, inr tt) ->
                RPCConnect url port key enable_logging init_seq w =
                  (w7, inr endpt)) /\
    (forall w7 e, InitRemoteSession endpt init_seq w6 = (w7, inl e) ->
                  RPCConnect url port key enable_logging init_seq w =
                    (fst (SockChannel_dtor (mkSockChannel (mkSock (w_fd w)))
                                           w7),
                     inl e)).
Proof.
  intros HR HK HI HC HL Hcode Hlen.
  destruct (connect_accepted url port key enable_logging init_seq
              w c l rk rest HR HK HI HC HL Hcode Hlen)
    as (w6 & Sm & Sl & Sk & Rc & Rl & Rk & Hca & _ & _ & _ & HRc & HRl & HRk
        & _ & Hib & Hrun).
  cbv zeta in Hrun.
  exists w6, Sm, Sl, Sk, Rc, Rl, Rk.
  exists (RPCEndpoint_Create
            (make_SockChannel (mkSockChannel (mkSock (w_fd w))))
            key (string_of_list_byte rk)).
  split; [exact Hca |]. repeat (split; [assumption |]).
  split; [reflexivity |]. split; [reflexivity |]. split; [reflexivity |].
  rewrite Hrun. apply init_outcome.
Qed.

(** C2: for every four-byte response code other than MAGIC, [RPCConnect]
    closes the socket and fails, after a single connection and a single
    exchange; the failure tells the code: the "cannot find server that
    matches key" failure for MAGIC+2, the "server already have key" failure
    for MAGIC+1 and the "is not TVM RPC server" failure for any other
    value, and the three are pairwise different. *)
Theorem C2_connect_rejected url port key enable_logging init_seq w c rest :
  reachable w = true ->
  Z.of_nat (String.length key) <= INT_MAX ->
  w_inbox w = c ++ rest -> length c = 4%nat ->
  bytes_int c <> kRPCMagic ->
  let r := RPCConnect url port key enable_logging init_seq w in
  let not_found := ("URL " ++ url ++ ":" ++ show_int port ++
                    " cannot find server that matches key=" ++ key)%string in
  let conflict := ("URL " ++ url ++ ":" ++ show_int port ++
                   " server already have key=" ++ key)%string in
  let mismatch := ("URL " ++ url ++ ":" ++ show_int port ++
                   " is not TVM RPC server")%string in
  exists Sm Sl Sk R,
    w_state (fst r) = Closed /\
    w_trace (fst r) =
      w_trace w ++
      EvCreate (w_fd w) :: EvConnect (c_string url) port true ::
      map EvSend Sm ++ map EvSend Sl ++ map EvSend Sk ++
      map EvRecv R ++ [EvClose (w_fd w)] /\
    concat (Sm ++ Sl ++ Sk) = handshake_request key /\ concat R = c /\
    (bytes_int c = kRPCMagic + 2 -> snd r = inl (Fatal not_found)) /\
    (bytes_int c = kRPCMagic + 1 -> snd r = inl (Fatal conflict)) /\
    (bytes_int c <> kRPCMagic + 2 -> bytes_int c <> kRPCMagic + 1 ->
     snd r = inl (Fatal mismatch)) /\
    not_found <> conflict /\ not_found <> mismatch /\ conflict <> mismatch.
Proof.
  intros HR HK HI HC Hcode r not_found conflict mismatch.
  destruct (connect_rejected url port key enable_logging init_seq
              w c rest HR HK HI HC Hcode)
    as (w4 & Sm & Sl & Sk & R & Hca & HSm & HSl & HSk & HRc & _ & Hrun).
  exists Sm, Sl, Sk, R. subst r. rewrite Hrun. cbn [fst snd].
  split; [reflexivity |].
  split.
  { unfold closed. simpl. rewrite (ca_trace _ _ _ _ _ Hca), (ca_fd _ _ _ _ _ Hca).
    rewrite <- !app_assoc. simpl. rewrite <- !app_assoc. reflexivity. }
  split.
  { rewrite !concat_app, HSm, HSl, HSk. reflexivity. }
  split; [exact HRc |].
  split.
  { intros ->. now rewrite Z.eqb_refl. }
  split.
  { intros ->. replace (kRPCMagic + 1 =? kRPCMagic + 2) with false
      by (symmetry; apply Z.eqb_neq; lia).
    now rewrite Z.eqb_refl. }
  split.
  { intros H2 H1. apply Z.eqb_neq in H2, H1. now rewrite H2, H1. }
  unfold not_found, conflict, mismatch.
  repeat split; intros H;
    repeat (apply string_append_inj in H); discriminate H.
Qed.

(** C3: on every connect, [RPCConnect] first sends the 32-bit magic number,
    then the 32-bit key length, then exactly the key bytes, each completely
    before the next, through as many primitive sends as the transport
    needs; only then does it read the four bytes of the response code,
    completely. *)
Theorem C3_connect_sends_request_first url port key enable_logging init_seq
    w c rest :
  reachable w = true ->
  Z.of_nat (String.length key) <= INT_MAX ->
  w_inbox w = c ++ rest -> length c = 4%nat ->
  (forall e a, appends (InitRemoteSession e a)) ->
  exists Sm Sl Sk R evs,
    w_trace (fst (RPCConnect url port key enable_logging init_seq w)) =
      w_trace w ++
      EvCreate (w_fd w) :: EvConnect (c_string url) port true ::
      map EvSend Sm ++ map EvSend Sl ++ map EvSend Sk ++
      map EvRecv R ++ evs /\
    concat Sm = int_bytes kRPCMagic /\
    concat Sl = int_bytes (Z.of_nat (String.length key)) /\
    concat Sk = list_byte_of_string key /\
    length (concat Sk) = String.length key /\
    concat R = c /\
    Forall (fun x => x <> []) (Sm ++ Sl ++ Sk ++ R).
Proof.
  intros HR HK HI HC HInit.
  destruct (connect_trace url port key enable_logging init_seq
              w c rest HR HK HI HC HInit)
    as (Sm & Sl & Sk & R & evs & Ht & HSm & HSl & HSk & HRc & Hne).
  exists Sm, Sl, Sk, R, evs.
  repeat (split; [assumption |]).
  split; [| auto]. rewrite HSk. apply length_list_byte_of_string.
Qed.

(** C8: for every url, port and key, [RPCClientConnect] performs the
    handshake of [RPCConnect] with the key ["client:"] followed by the
    given key: the key length it sends counts the prefix, and the key bytes
    it sends are those of ["client:"] followed by those of the key. *)
Theorem C8_client_key_prefix url port key enable_logging init_seq w c rest :
  reachable w = true ->
  Z.of_nat (String.length key) + 7 <= INT_MAX ->
  w_inbox w = c ++ rest -> length c = 4%nat ->
  (forall e a, appends (InitRemoteSession e a)) ->
  exists Sm Sl Sk R evs,
    w_trace (fst (RPCClientConnect url port key enable_logging init_seq w)) =
      w_trace w ++
      EvCreate (w_fd w) :: EvConnect (c_string url) port true ::
      map EvSend Sm ++ map EvSend Sl ++ map EvSend Sk ++
      map EvRecv R ++ evs /\
    concat Sm = int_bytes kRPCMagic /\
    concat Sl = int_bytes (Z.of_nat (String.length ("client:" ++ key))) /\
    string_of_list_byte (concat Sk) = ("client:" ++ key)%string /\
    concat Sk = list_byte_of_string "client:" ++ list_byte_of_string key /\
    concat R = c /\
    Forall (fun x => x <> []) (Sm ++ Sl ++ Sk ++ R).
Proof.
  intros HR HK HI HC HInit.
  assert (HK' : Z.of_nat (String.length ("client:" ++ key)) <= INT_MAX).
  { simpl String.length. lia. }
  destruct (connect_trace url port ("client:" ++ key) enable_logging init_seq
              w c rest HR HK' HI HC HInit)
    as (Sm & Sl & Sk & R & evs & Ht & HSm & HSl & HSk & HRc & Hne).
  exists Sm, Sl, Sk, R, evs.
  split.
  { unfold RPCClientConnect, bind.
    destruct (RPCConnect url port ("client:" ++ key) enable_logging init_seq w)
      as [w' [e | endpt]]; exact Ht. }
  split; [exact HSm |]. split; [exact HSl |].
  split; [rewrite HSk; apply string_of_list_byte_of_string |].
  split; [rewrite HSk; reflexivity |]. auto.
Qed.

(** C9: with an empty local key, [RPCConnect] sends the magic number and a
    zero key length and nothing else before it reads the response code: no
    send of key bytes takes place.  Symmetrically, when the server accepts
    and announces a key length of 0, [RPCConnect] receives nothing after
    the four bytes of that length and the Endpoint, which it hands to the
    session initialisation and returns when that returns, records the
    empty string as remote key. *)
Theorem C9_empty_keys url port enable_logging init_seq :
  (forall w c rest,
     reachable w = true -> w_inbox w = c ++ rest -> length c = 4%nat ->
     (forall e a, appends (InitRemoteSession e a)) ->
     exists Sm Sl R evs,
       w_trace (fst (RPCConnect url port "" enable_logging init_seq w)) =
         w_trace w ++
         EvCreate (w_fd w) :: EvConnect (c_string url) port true ::
         map EvSend Sm ++ map EvSend Sl ++ map EvRecv R ++ evs /\
       concat Sm = int_bytes kRPCMagic /\ concat Sl = int_bytes 0 /\
       concat R = c /\ R <> []) /\
  (forall key w c l rest,
     reachable w = true -> Z.of_nat (String.length key) <= INT_MAX ->
     w_inbox w = c ++ l ++ rest ->
     length c = 4%nat -> length l = 4%nat ->
     bytes_int c = kRPCMagic -> bytes_int l = 0 ->
     exists w6 Sm Sl Sk Rc Rl endpt,
       connected_after (c_string url) port w w6
         (map EvSend Sm ++ map EvSend Sl ++ map EvSend Sk ++
          map EvRecv Rc ++ map EvRecv Rl) /\
       concat Rc = c /\ concat Rl = l /\ w_inbox w6 = rest /\
       endpt =
         RPCEndpoint_Create
           (make_SockChannel (mkSockChannel (mkSock (w_fd w)))) key "" /\
       (forall w7, InitRemoteSession endpt init_seq w6 = (w7, inr tt) ->
                   RPCConnect url port key enable_logging init_seq w =
                     (w7, inr endpt)) /\
       (forall w7 e, InitRemoteSession endpt init_seq w6 = (w7, inl e) ->
                     RPCConnect url port key enable_logging init_seq w =
                       (fst (RPCEndpoint_dtor endpt w7), inl e))).
Proof.
  split.
  - intros w c rest HR HI HC HInit.
    destruct (connect_trace url port "" enable_logging init_seq
                w c rest HR ltac:(simpl; unfold INT_MAX; lia) HI HC HInit)
      as (Sm & Sl & Sk & R & evs & Ht & HSm & HSl & HSk & HRc & Hne).
    apply Forall_app in Hne as [_ Hne]. apply Forall_app in Hne as [_ Hne].
    apply Forall_app in Hne as [HneK HneR].
    rewrite (concat_nil_nonempty Sk HSk HneK) in Ht. simpl in Ht.
    exists Sm, Sl, R, evs. repeat (split; [assumption |]).
    intros ->. simpl in HRc. subst c. discriminate HC.
  - intros key w c l rest HR HK HI HC HL Hcode Hlen.
    destruct (connect_accepted url port key enable_logging init_seq
                w c l [] rest HR HK HI HC HL Hcode Hlen)
      as (w6 & Sm & Sl & Sk & Rc & Rl & Rk & Hca & _ & _ & _ & HRc & HRl & HRk
          & Hne & Hib & Hrun).
    repeat (apply Forall_app in Hne as [_ Hne]).
    rewrite (concat_nil_nonempty Rk HRk Hne) in Hca.
    simpl in Hca. rewrite app_nil_r in Hca. cbv zeta in Hrun.
    exists w6, Sm, Sl, Sk, Rc, Rl. eexists.
    split; [exact Hca |]. repeat (split; [assumption |]).
    split; [reflexivity |]. rewrite Hrun. apply init_outcome.
Qed.

(** ** The socket-backed channel *)

(** C5: the destructor of a socket-backed channel closes the socket only
    when the socket is not already invalid, and never lets an error out:
    an error of the validity check or of the close is discarded, as is any
    error of any body under a catch-all handler. *)
Theorem C5_channel_teardown (c : SockChannel) (w : world) :
  snd (SockChannel_dtor c w) = inr tt /\
  fst (SockChannel_dtor c w) =
    match TCPSocket_BadSocket (sock_ c) w with
    | (w1, inr false) => fst (TCPSocket_Close (sock_ c) w1)
    | (w1, _) => w1
    end /\
  w_trace (fst (SockChannel_dtor c w)) =
    w_trace w ++
    (if sockfd (sock_ c) =? INVALID_SOCKET then []
     else match w_check w with
          | Some false => [EvClose (sockfd (sock_ c))]
          | _ => []
          end) /\
  (forall (body : M unit) w0,
     snd (try_catch body (fun _ => ret tt) w0) = inr tt).
Proof.
  assert (Hcatch : forall (body : M unit) w0,
             snd (try_catch body (fun _ => ret tt) w0) = inr tt).
  { intros body w0. unfold try_catch.
    destruct (body w0) as [w1 [e | []]]; reflexivity. }
  split; [apply Hcatch |]. split; [| split; [| exact Hcatch]].
  - unfold SockChannel_dtor, try_catch, bind, TCPSocket_BadSocket,
      TCPSocket_Close.
    destruct (sockfd (sock_ c) =? INVALID_SOCKET) eqn:E; simpl.
    + reflexivity.
    + destruct (w_check w) as [[|] |]; reflexivity.
  - unfold SockChannel_dtor, try_catch, bind, TCPSocket_BadSocket,
      TCPSocket_Close.
    destruct (sockfd (sock_ c) =? INVALID_SOCKET) eqn:E; simpl.
    + now rewrite app_nil_r.
    + destruct (w_check w) as [[|] |]; simpl; try (now rewrite app_nil_r).
      destruct (sockfd (sock_ c) =? w_fd w); reflexivity.
Qed.

(** ** The server loop *)

(** C7: the server loop has two entry points, and the registered function
    dispatches to one of them or fails on its arguments; the one given a
    descriptor wraps it in a socket-backed channel, the one given a pair of
    procedures wraps them in a callback-backed channel, and both then are
    the same computation on that channel: an Endpoint over it runs the
    blocking loop and is torn down, its channel with it, when the loop is
    over, whether the loop returned or raised.  The outcome of either is
    the outcome of the loop; the two differ by what the teardown of their
    channel does: nothing for a pair of procedures, the destructor of the
    socket-backed channel for a descriptor. *)
Theorem C7_server_loop_entry_points :
  (forall sockfd w,
     RPCServerLoop_sockfd sockfd w =
       serve_spec (make_SockChannel (mkSockChannel (mkSock sockfd))) w) /\
  (forall fsend frecv w,
     RPCServerLoop_callbacks fsend frecv w =
       serve_spec (make_CallbackChannel (mkCallbackChannel fsend frecv)) w) /\
  (forall channel w,
     let loop :=
       ServerLoop (RPCEndpoint_Create channel "SockServerLoop" "") w in
     snd (serve_spec channel w) = snd loop /\
     fst (serve_spec channel w) =
       match channel with
       | make_SockChannel c => fst (SockChannel_dtor c (fst loop))
       | make_CallbackChannel _ => fst loop
       end) /\
  (forall v rest w,
     rpc_ServerLoop (AnyInt v :: rest) w = RPCServerLoop_sockfd (to_int v) w) /\
  (forall fsend frecv rest w,
     rpc_ServerLoop (AnyFunc fsend :: AnyFunc frecv :: rest) w =
       RPCServerLoop_callbacks fsend frecv w) /\
  (forall args w,
     (exists sockfd, rpc_ServerLoop args w = RPCServerLoop_sockfd sockfd w) \/
     (exists fsend frecv,
        rpc_ServerLoop args w = RPCServerLoop_callbacks fsend frecv w) \/
     (exists i, rpc_ServerLoop args w = (w, inl (CastError i)))).
Proof.
  assert (Hserve : forall channel w,
             with_temporary
               (RPCEndpoint_dtor
                  (RPCEndpoint_Create channel "SockServerLoop" ""))
               (ServerLoop (RPCEndpoint_Create channel "SockServerLoop" "")) w
             = serve_spec channel w).
  { intros channel w. rewrite with_temporary_run
      by (intros; apply RPCChannel_dtor_returns).
    unfold serve_spec, RPCEndpoint_dtor. cbn [channel_ RPCEndpoint_Create].
    destruct (ServerLoop _ w) as [w1 r]. reflexivity. }
  split; [intros; apply Hserve |]. split; [intros; apply Hserve |].
  split.
  { intros channel w loop. unfold serve_spec. fold loop.
    destruct loop as [w1 r]. cbn [fst snd].
    split; [reflexivity |]. destruct channel; reflexivity. }
  split; [reflexivity |]. split; [reflexivity |].
  intros args w. unfold rpc_ServerLoop.
  destruct (as_int64 (arg args 0)) as [v |] eqn:E.
  - left. eauto.
  - right. unfold cast_Function, bind.
    destruct (arg args 0) as [| | | | fsend]; try (right; eexists; reflexivity).
    destruct (arg args 1) as [| | | | frecv]; try (right; eexists; reflexivity).
    left. exists fsend, frecv. reflexivity.
Qed.

(** C10: whatever the caller supplies, each server-loop entry point runs
    the loop of an Endpoint whose local key is ["SockServerLoop"] and whose
    remote key is the empty string, and exchanges no key itself: the loop
    starts in the very world of the call, the outcome of the entry point
    is the outcome of the loop, and all the entry point does once the loop
    is over is to let that Endpoint go. *)
Theorem C10_server_loop_keys :
  (forall sockfd,
     exists endpt,
       channel_ endpt = make_SockChannel (mkSockChannel (mkSock sockfd)) /\
       name_ endpt = "SockServerLoop"%string /\
       remote_key_ endpt = EmptyString /\
       forall w,
         let loop := ServerLoop endpt w in
         RPCServerLoop_sockfd sockfd w =
           (fst (RPCEndpoint_dtor endpt (fst loop)), snd loop)) /\
  (forall fsend frecv,
     exists endpt,
       channel_ endpt =
         make_CallbackChannel (mkCallbackChannel fsend frecv) /\
       name_ endpt = "SockServerLoop"%string /\
       remote_key_ endpt = EmptyString /\
       forall w,
         let loop := ServerLoop endpt w in
         RPCServerLoop_callbacks fsend frecv w =
           (fst (RPCEndpoint_dtor endpt (fst loop)), snd loop)).
Proof.
  split.
  - intros sockfd.
    exists (RPCEndpoint_Create
              (make_SockChannel (mkSockChannel (mkSock sockfd)))
              "SockServerLoop" "").
    split; [reflexivity |]. split; [reflexivity |].
    split; [reflexivity |]. intros w loop.
    apply with_temporary_run. intros; apply RPCChannel_dtor_returns.
  - intros fsend frecv.
    exists (RPCEndpoint_Create
              (make_CallbackChannel (mkCallbackChannel fsend frecv))
              "SockServerLoop" "").
    split; [reflexivity |].
    split; [reflexivity |]. split; [reflexivity |]. intros w loop.
    apply with_temporary_run. intros; apply RPCChannel_dtor_returns.
Qed.

Lemma Send_result s data w :
  exists w' n,
    TCPSocket_Send s data w = (w', inr n) /\
    (n = -1 /\ sent_bytes (w_trace w') = sent_bytes (w_trace w) \/
     0 <= n <= Z.of_nat (length data) /\
     w_trace w' = w_trace w ++ [EvSend (firstn (Z.to_nat n) data)]).
Proof.
  unfold TCPSocket_Send.
  destruct (usable s w); [destruct (w_script w) as [| [| k] sc] |];
    eexists _, _; (split; [reflexivity |]);
    unfold emit, set_script; cbn [w_trace].
  - right. rewrite Nat2Z.id, firstn_all. split; [lia | reflexivity].
  - left. split; [reflexivity |].
    rewrite sent_bytes_app. simpl. now rewrite app_nil_r.
  - right. rewrite Nat2Z.id, firstn_length_firstn.
    split; [| reflexivity].
    rewrite length_firstn. lia.
  - left. split; [reflexivity |].
    rewrite sent_bytes_app. simpl. now rewrite app_nil_r.
Qed.

Lemma firstn_skipn_length {A} (m : nat) (l : list A) :
  firstn m l ++ skipn (length (firstn m l)) l = l.
Proof.
  rewrite <- (firstn_length_firstn m l) at 1. apply firstn_skipn.
Qed.

Lemma Recv_result s size w :
  0 <= size ->
  exists w' n bs,
    TCPSocket_Recv s size w = (w', inr (n, bs)) /\
    (n = -1 /\ w_inbox w' = w_inbox w /\
     w_trace w' = w_trace w ++ [EvRecvFault] \/
     0 <= n <= size /\ n = Z.of_nat (length bs) /\
     w_inbox w = bs ++ w_inbox w' /\
     w_trace w' = w_trace w ++ [EvRecv bs]).
Proof.
  intros Hs. unfold TCPSocket_Recv.
  destruct (usable s w); [destruct (w_script w) as [| [| k] sc] |];
    eexists _, _, _; (split; [reflexivity |]);
    unfold emit, set_script, set_inbox; cbn [w_trace w_inbox]; auto.
  - right. rewrite firstn_skipn_length.
    pose proof (length_firstn (Z.to_nat size) (w_inbox w)). split; [lia | auto].
  - right. rewrite firstn_skipn_length.
    pose proof (length_firstn (Nat.min (S k) (Z.to_nat size)) (w_inbox w)).
    split; [lia | auto].
Qed.

Lemma SockChannel_Recv_result c size w :
  0 <= size < 2 ^ 64 ->
  (exists w',
     SockChannel_Recv c size w =
       (w', inl (SocketError "SockChannel::Recv")) /\
     w_inbox w' = w_inbox w /\
     w_trace w' = w_trace w ++ [EvRecvFault]) \/
  (exists w' bs,
     SockChannel_Recv c size w = (w', inr (Z.of_nat (length bs), bs)) /\
     Z.of_nat (length bs) <= size /\
     w_inbox w = bs ++ w_inbox w' /\
     w_trace w' = w_trace w ++ [EvRecv bs]).
Proof.
  intros Hs.
  destruct (Recv_result (sock_ c) size w) as (w' & n & bs & Hrun & H); [lia |].
  unfold SockChannel_Recv. rewrite (bind_run _ _ _ _ _ Hrun).
  destruct H as [(-> & Hi & Ht) | (Hn & -> & Hi & Ht)].
  - left. exists w'. auto.
  - right. exists w', bs.
    replace (Z.of_nat (length bs) =? -1) with false
      by (symmetry; apply Z.eqb_neq; lia).
    rewrite (bind_run _ _ w' w' tt) by reflexivity.
    unfold ret, to_size_t. rewrite Z.mod_small by lia.
    split; [reflexivity |]. split; [lia | auto].
Qed.

(** The exact-count read of an Endpoint over a socket-backed channel either
    delivers exactly the bytes asked for, in the order of the stream, or
    ends in an error right after the receive that failed or met the end of
    the stream; it never delivers a short buffer. *)
Lemma Endpoint_ReadExact_result c size fuel : forall acc w,
  size < 2 ^ 64 -> Z.of_nat (length acc) <= size ->
  (Z.to_nat size - length acc <= fuel)%nat ->
  exists w' evs,
    w_trace w' = w_trace w ++ evs /\
    ((exists got,
        Endpoint_ReadExact fuel c size acc w = (w', inr (acc ++ got)) /\
        Z.of_nat (length (acc ++ got)) = size /\
        w_inbox w = got ++ w_inbox w') \/
     (exists evs',
        Endpoint_ReadExact fuel c size acc w =
          (w', inl (SocketError "SockChannel::Recv")) /\
        evs = evs' ++ [EvRecvFault]) \/
     (exists evs',
        Endpoint_ReadExact fuel c size acc w = (w', inl EndOfStream) /\
        evs = evs' ++ [EvRecv []])).
Proof.
  induction fuel as [| fuel IH]; intros acc w Hs Ha Hf.
  - exists w, []. rewrite app_nil_r. split; [reflexivity |].
    left. exists []. rewrite app_nil_r. simpl.
    split; [reflexivity |]. split; [lia | reflexivity].
  - cbn [Endpoint_ReadExact].
    destruct (Z.of_nat (length acc) <? size) eqn:E.
    + apply Z.ltb_lt in E.
      destruct (SockChannel_Recv_result c (size - Z.of_nat (length acc)) w)
        as [(w1 & Hrun & Hi & Ht) | (w1 & bs & Hrun & Hn & Hi & Ht)];
        [lia | |].
      * exists w1, [EvRecvFault]. split; [exact Ht |].
        right. left. exists []. rewrite (bind_fail _ _ _ _ _ Hrun). auto.
      * rewrite (bind_run _ _ _ _ _ Hrun).
        destruct bs as [| b bs].
        { exists w1, [EvRecv []]. split; [exact Ht |].
          right. right. exists []. auto. }
        replace (Z.of_nat (length (b :: bs)) =? 0) with false
          by (symmetry; apply Z.eqb_neq; simpl length; lia).
        destruct (IH (acc ++ b :: bs) w1) as (w' & evs & Ht' & H).
        { exact Hs. }
        { rewrite length_app. lia. }
        { rewrite length_app. simpl length in *. lia. }
        exists w', (EvRecv (b :: bs) :: evs).
        split.
        { rewrite Ht', Ht, <- app_assoc. reflexivity. }
        destruct H as [(got & Hr & Hl & Hi') | [(evs' & Hr & ->) | (evs' & Hr & ->)]].
        -- left. exists ((b :: bs) ++ got). rewrite app_assoc.
           split; [exact Hr |]. split; [exact Hl |].
           rewrite Hi, Hi', app_assoc. reflexivity.
        -- right. left. exists (EvRecv (b :: bs) :: evs'). auto.
        -- right. right. exists (EvRecv (b :: bs) :: evs'). auto.
    + apply Z.ltb_ge in E. exists w, []. rewrite app_nil_r.
      split; [reflexivity |]. left. exists []. rewrite app_nil_r.
      split; [reflexivity |]. split; [lia | reflexivity].
Qed.

(** C6: a send or a receive on a socket-backed channel returns the number
    of bytes that were transferred, which can be less than what was asked
    for; when the socket reports -1 the channel raises a socket error
    instead of returning; at the end of the peer's stream a receive returns
    0; and an Endpoint that reads an exact count over the channel gets
    exactly that count or ends in an error, and the error comes right
    after the receive that failed or that returned 0. *)
Theorem C6_sock_channel_transfers (c : SockChannel) (data : list byte)
    (size : Z) (w : world) :
  Z.of_nat (length data) < 2 ^ 64 -> 0 <= size < 2 ^ 64 ->
  (exists w' n,
     TCPSocket_Send (sock_ c) data w = (w', inr n) /\
     (n = -1 /\
      SockChannel_Send c data w =
        (w', inl (SocketError "SockChannel::Send")) /\
      sent_bytes (w_trace w') = sent_bytes (w_trace w) \/
      0 <= n <= Z.of_nat (length data) /\
      SockChannel_Send c data w = (w', inr n) /\
      w_trace w' = w_trace w ++ [EvSend (firstn (Z.to_nat n) data)])) /\
  (exists w' n bs,
     TCPSocket_Recv (sock_ c) size w = (w', inr (n, bs)) /\
     (n = -1 /\
      SockChannel_Recv c size w =
        (w', inl (SocketError "SockChannel::Recv")) /\
      w_inbox w' = w_inbox w \/
      0 <= n <= size /\ n = Z.of_nat (length bs) /\
      SockChannel_Recv c size w = (w', inr (n, bs)) /\
      w_inbox w = bs ++ w_inbox w' /\
      w_trace w' = w_trace w ++ [EvRecv bs])) /\
  (exists w1 w1', SockChannel_Send c [x00; x01] w1 = (w1', inr 1)) /\
  (usable (sock_ c) w = true -> no_fault (firstn 1 (w_script w)) = true ->
   w_inbox w = [] ->
   exists w', SockChannel_Recv c size w = (w', inr (0, []))) /\
  (exists w' evs,
     w_trace w' = w_trace w ++ evs /\
     ((exists got,
         Endpoint_ReadExact (Z.to_nat size) c size [] w = (w', inr got) /\
         Z.of_nat (length got) = size /\
         w_inbox w = got ++ w_inbox w') \/
      (exists evs',
         Endpoint_ReadExact (Z.to_nat size) c size [] w =
           (w', inl (SocketError "SockChannel::Recv")) /\
         evs = evs' ++ [EvRecvFault]) \/
      (exists evs',
         Endpoint_ReadExact (Z.to_nat size) c size [] w =
           (w', inl EndOfStream) /\
         evs = evs' ++ [EvRecv []]))).
Proof.
  intros Hd Hs.
  split; [| split; [| split; [| split]]].
  - destruct (Send_result (sock_ c) data w) as (w' & n & Hrun & H).
    exists w', n. split; [exact Hrun |].
    unfold SockChannel_Send. rewrite (bind_run _ _ _ _ _ Hrun).
    destruct H as [[-> Ht] | [Hn Ht]].
    + left. auto.
    + right. split; [exact Hn |]. split; [| exact Ht].
      replace (n =? -1) with false by (symmetry; apply Z.eqb_neq; lia).
      rewrite (bind_run _ _ w' w' tt) by reflexivity.
      unfold ret, to_size_t. rewrite Z.mod_small by lia. reflexivity.
  - destruct (Recv_result (sock_ c) size w) as (w' & n & bs & Hrun & H);
      [lia |].
    exists w', n, bs. split; [exact Hrun |].
    unfold SockChannel_Recv. rewrite (bind_run _ _ _ _ _ Hrun).
    destruct H as [(-> & Hi & _) | (Hn & Hl & Hi & Ht)].
    + left. auto.
    + right. repeat (split; [assumption |]). split; [| auto].
      replace (n =? -1) with false by (symmetry; apply Z.eqb_neq; lia).
      rewrite (bind_run _ _ w' w' tt) by reflexivity.
      unfold ret, to_size_t. rewrite Z.mod_small by lia. reflexivity.
  - exists (mkWorld true (sockfd (sock_ c)) Connected true None [] [Upto 0] []).
    eexists. unfold SockChannel_Send, bind, TCPSocket_Send, usable. simpl.
    rewrite Z.eqb_refl. simpl. reflexivity.
  - intros U N Hi. unfold SockChannel_Recv, bind, TCPSocket_Recv.
    rewrite U, Hi.
    destruct (w_script w) as [| [| k] sc]; simpl in *;
      try discriminate; rewrite firstn_nil; simpl; eexists; reflexivity.
  - destruct (Endpoint_ReadExact_result c size (Z.to_nat size) [] w)
      as (w' & evs & Ht & H); [lia | simpl; lia | simpl; lia |].
    exists w', evs. split; [exact Ht |]. exact H.
Qed.

(** ** The exception frame *)

Lemma Z_of_byte_of_Z z : Z_of_byte (byte_of_Z z) = z mod 256.
Proof.
  unfold Z_of_byte, byte_of_Z.
  pose proof (Z.mod_pos_bound z 256 ltac:(lia)) as Hb.
  destruct (Byte.of_N (Z.to_N (z mod 256))) as [b |] eqn:E.
  - apply Byte.to_of_N in E. rewrite E. apply Z2N.id. lia.
  - apply Byte.of_N_None_iff in E. lia.
Qed.

Lemma length_le_bytes n z : length (le_bytes n z) = n.
Proof. revert z. induction n as [| n IH]; intros z; simpl; congruence. Qed.

Lemma le_value_le_bytes n z :
  le_value (le_bytes n z) = z mod 2 ^ (8 * Z.of_nat n).
Proof.
  revert z. induction n as [| n IH]; intros z.
  - simpl. now rewrite Z.mod_1_r.
  - cbn [le_bytes le_value]. rewrite IH, Z_of_byte_of_Z, Z.shiftr_div_pow2 by lia.
    replace (8 * Z.of_nat (S n)) with (8 + 8 * Z.of_nat n) by lia.
    rewrite Z.pow_add_r by lia. change (2 ^ 8) with 256.
    rewrite Z.rem_mul_r by lia. reflexivity.
Qed.

Lemma until_nul_c_str (bs : list byte) :
  forallb (fun b => negb (is_nul b)) bs = true ->
  until_nul (bs ++ [x00]) = bs.
Proof.
  induction bs as [| b bs IH]; simpl; intros H; [reflexivity |].
  apply andb_true_iff in H as [Hb H]. apply negb_true_iff in Hb.
  rewrite Hb, IH by exact H. reflexivity.
Qed.

Lemma starts_with_app p bs : starts_with p (p ++ bs) = true.
Proof.
  induction p as [| a p IH]; simpl; [reflexivity |].
  rewrite IH, andb_true_r. now apply Byte.byte_dec_lb.
Qed.

Lemma whole_transfers_tail n o sc :
  whole_transfers n (o :: sc) = true -> whole_transfers n sc = true.
Proof. simpl. intros H. now apply andb_true_iff in H. Qed.

(** A send on a transport that moves [n] bytes at once transfers any buffer
    of at most [n] bytes completely. *)
Lemma Send_whole s data w n :
  usable s w = true -> whole_transfers n (w_script w) = true ->
  (length data <= n)%nat ->
  exists w',
    TCPSocket_Send s data w = (w', inr (Z.of_nat (length data))) /\
    usable s w' = true /\ whole_transfers n (w_script w') = true /\
    w_trace w' = w_trace w ++ [EvSend data].
Proof.
  intros U W L. unfold TCPSocket_Send. rewrite U.
  destruct (w_script w) as [| [| k] sc] eqn:E.
  - eexists. split; [reflexivity |]. unfold usable in *. simpl.
    rewrite E. auto.
  - simpl in W. discriminate.
  - assert (Hk : firstn (S k) data = data).
    { apply firstn_all2. simpl in W. apply andb_true_iff in W as [W _].
      apply Nat.leb_le in W. lia. }
    rewrite Hk. eexists. split; [reflexivity |]. unfold usable in *. simpl.
    split; [exact U |]. split; [| reflexivity].
    eapply whole_transfers_tail; eauto.
Qed.

Lemma decode_exception_frame (text : list byte) :
  Z.of_nat (length text) < 2 ^ 64 ->
  decode_exception (exception_frame text) = Some (string_of_list_byte text).
Proof.
  intros Hl. unfold decode_exception, exception_frame.
  rewrite starts_with_app, (skipn_length_app exception_marker _ _ eq_refl).
  assert (H8 : length (uint64_bytes (Z.of_nat (length text))) = 8%nat)
    by apply length_le_bytes.
  rewrite length_app, H8.
  replace (8 + length text <? 8)%nat with false
    by (symmetry; apply Nat.ltb_ge; lia).
  rewrite (firstn_length_app _ text 8 (eq_sym H8)).
  rewrite (skipn_length_app _ text 8 (eq_sym H8)).
  unfold uint64_bytes. rewrite le_value_le_bytes.
  change (8 * Z.of_nat 8) with 64. rewrite Z.mod_small by lia.
  now rewrite Nat2Z.id, Nat.eqb_refl.
Qed.

(** C4 (amended): for every descriptor of a connected socket whose sends
    transfer their buffers completely, and every message that contains no
    NUL character, [rpc.ReturnException] writes exactly one exception
    frame, the marker followed by the length-prefixed text, and the message
    the receiving side decodes from that frame is the message itself. *)
Theorem C4_exception_frame_roundtrip (sockfd : Z) (msg : string) (w : world) :
  usable (mkSock sockfd) w = true ->
  whole_transfers (length (exception_frame (list_byte_of_string msg)))
                  (w_script w) = true ->
  forallb (fun b => negb (is_nul b)) (list_byte_of_string msg) = true ->
  Z.of_nat (String.length msg) < 2 ^ 64 ->
  let r := rpc_ReturnException sockfd msg w in
  snd r = inr tt /\
  w_trace (fst r) =
    w_trace w ++
    [EvSend exception_marker;
     EvSend (uint64_bytes (Z.of_nat (String.length msg)));
     EvSend (list_byte_of_string msg)] /\
  sent_bytes (w_trace (fst r)) =
    sent_bytes (w_trace w) ++ exception_frame (list_byte_of_string msg) /\
  decode_exception (exception_frame (list_byte_of_string msg)) = Some msg.
Proof.
  intros U W Hnul Hlen r.
  set (text := list_byte_of_string msg) in *.
  assert (Htext : length text = String.length msg)
    by apply length_list_byte_of_string.
  assert (Hframe : length (exception_frame text) =
                   (length exception_marker + (8 + length text))%nat).
  { unfold exception_frame, uint64_bytes.
    now rewrite !length_app, length_le_bytes. }
  destruct (Send_whole _ exception_marker w _ U W) as (w1 & R1 & U1 & W1 & T1);
    [lia |].
  destruct (Send_whole _ (uint64_bytes (Z.of_nat (length text))) w1 _ U1 W1)
    as (w2 & R2 & U2 & W2 & T2).
  { unfold uint64_bytes. rewrite length_le_bytes. lia. }
  destruct (Send_whole _ text w2 _ U2 W2) as (w3 & R3 & U3 & W3 & T3); [lia |].
  assert (Hrun : r = (w3, inr tt)).
  { subst r. unfold rpc_ReturnException, ReturnException, c_str.
    fold text. rewrite (until_nul_c_str text Hnul).
    unfold SimpleSockHandler_Write. cbn [handler_sock_].
    unfold bind. rewrite R1. cbn [ret]. rewrite R2. cbn [ret]. rewrite R3.
    reflexivity. }
  assert (Ht : w_trace w3 =
               w_trace w ++
               [EvSend exception_marker;
                EvSend (uint64_bytes (Z.of_nat (length text)));
                EvSend text]).
  { rewrite T3, T2, T1, <- !app_assoc. reflexivity. }
  rewrite Hrun. cbn [fst snd]. rewrite <- Htext.
  split; [reflexivity |]. split; [exact Ht |].
  split.
  { rewrite Ht, sent_bytes_app. simpl. unfold exception_frame.
    now rewrite app_nil_r. }
  rewrite decode_exception_frame by (rewrite Htext; exact Hlen).
  unfold text. now rewrite string_of_list_byte_of_string.
Qed.

(** * Further properties of the code *)

(** ** Transfers in an arbitrary world *)

Lemma bind_inv {A B} (m : M A) (k : A -> M B) w w' b :
  bind m k w = (w', inr b) ->
  exists w1 a, m w = (w1, inr a) /\ k a w1 = (w', inr b).
Proof.
  unfold bind. destruct (m w) as [w1 [e | a]]; intros H; [discriminate |].
  eauto.
Qed.

Lemma xfer_refl w : xfer w w [] [].
Proof. constructor; try reflexivity; now rewrite app_nil_r. Qed.

Lemma xfer_trans w w1 w2 s1 r1 s2 r2 :
  xfer w w1 s1 r1 -> xfer w1 w2 s2 r2 -> xfer w w2 (s1 ++ s2) (r1 ++ r2).
Proof.
  intros [F1 S1 A1 C1 I1 T1 R1] [F2 S2 A2 C2 I2 T2 R2].
  constructor; try congruence.
  - rewrite I1, I2, app_assoc. reflexivity.
  - rewrite T2, T1, app_assoc. reflexivity.
  - rewrite R2, R1, app_assoc. reflexivity.
Qed.

Lemma xfer_emit_send w0 w bs :
  w_fd w0 = w_fd w -> w_state w0 = w_state w -> w_accepts w0 = w_accepts w ->
  w_check w0 = w_check w -> w_inbox w0 = w_inbox w -> w_trace w0 = w_trace w ->
  xfer w (emit (EvSend bs) w0) bs [].
Proof.
  intros F S A C I T. constructor; simpl; try assumption.
  - now rewrite I.
  - rewrite T, sent_bytes_app. simpl. now rewrite app_nil_r.
  - rewrite T, received_bytes_app. simpl. reflexivity.
Qed.

Lemma xfer_emit_fault w0 w e :
  e = EvSendFault \/ e = EvRecvFault ->
  w_fd w0 = w_fd w -> w_state w0 = w_state w -> w_accepts w0 = w_accepts w ->
  w_check w0 = w_check w -> w_inbox w0 = w_inbox w -> w_trace w0 = w_trace w ->
  xfer w (emit e w0) [] [].
Proof.
  intros He F S A C I T. constructor; simpl; try assumption.
  - now rewrite I.
  - rewrite T, sent_bytes_app. destruct He as [-> | ->]; reflexivity.
  - rewrite T, received_bytes_app. destruct He as [-> | ->]; reflexivity.
Qed.

(** One primitive send, whatever the transport does. *)
Lemma Send_any s data w :
  exists w' n,
    TCPSocket_Send s data w = (w', inr n) /\
    (n = -1 /\ xfer w w' [] [] \/
     0 <= n <= Z.of_nat (length data) /\ (data <> [] -> 1 <= n) /\
     xfer w w' (firstn (Z.to_nat n) data) []).
Proof.
  unfold TCPSocket_Send.
  destruct (usable s w); [destruct (w_script w) as [| [| k] sc] |];
    eexists _, _; (split; [reflexivity |]).
  - right. rewrite Nat2Z.id, firstn_all. split; [lia |]. split.
    + destruct data; [congruence | simpl; lia].
    + now apply xfer_emit_send.
  - left. split; [reflexivity |]. apply xfer_emit_fault; auto.
  - right. rewrite Nat2Z.id, firstn_length_firstn, length_firstn.
    split; [lia |]. split.
    + destruct data; [congruence | simpl; lia].
    + now apply xfer_emit_send.
  - left. split; [reflexivity |]. apply xfer_emit_fault; auto.
Qed.

(** [SendAll] either sends everything or raises with a proper part sent. *)
Lemma SendAll_loop_any s fuel : forall buf ndone w,
  (length buf <= fuel)%nat ->
  exists w' sent,
    xfer w w' sent [] /\
    (SendAll_loop fuel s buf ndone w =
       (w', inr (ndone + Z.of_nat (length buf))) /\ sent = buf \/
     SendAll_loop fuel s buf ndone w = (w', inl (SocketError "SendAll")) /\
     exists tail, buf = sent ++ tail /\ tail <> []).
Proof.
  induction fuel as [| fuel IH]; intros buf ndone w L.
  - destruct buf; [| simpl in L; lia].
    exists w, []. split; [apply xfer_refl |]. left. simpl.
    now rewrite Z.add_0_r.
  - destruct buf as [| b buf].
    + exists w, []. split; [apply xfer_refl |]. left. simpl.
      now rewrite Z.add_0_r.
    + cbn [SendAll_loop].
      destruct (Send_any s (b :: buf) w) as (w1 & n & Hrun & H).
      rewrite (bind_run _ _ _ _ _ Hrun).
      destruct H as [(-> & X) | (Hn & Hpos & X)].
      * exists w1, []. split; [exact X |]. right. split; [reflexivity |].
        exists (b :: buf). split; [reflexivity | discriminate].
      * specialize (Hpos ltac:(discriminate)).
        replace (n =? -1) with false by (symmetry; apply Z.eqb_neq; lia).
        destruct (IH (skipn (Z.to_nat n) (b :: buf)) (ndone + n) w1)
          as (w' & sent & X' & H').
        { rewrite length_skipn. simpl length in *. lia. }
        exists w', (firstn (Z.to_nat n) (b :: buf) ++ sent).
        split.
        { pose proof (xfer_trans _ _ _ _ _ _ _ X X') as Hx. exact Hx. }
        destruct H' as [(Hr & ->) | (Hr & tail & Ht & Hne)].
        -- left. rewrite Hr, firstn_skipn, length_skipn.
           split; [| reflexivity]. f_equal. f_equal. simpl length in *. lia.
        -- right. split; [exact Hr |]. exists tail. split; [| exact Hne].
           rewrite <- app_assoc, <- Ht. symmetry. apply firstn_skipn.
Qed.

Lemma SendAll_returns s data w w' n :
  TCPSocket_SendAll s data w = (w', inr n) ->
  n = Z.of_nat (length data) /\ xfer w w' data [].
Proof.
  unfold TCPSocket_SendAll. intros H.
  destruct (SendAll_loop_any s (length data) data 0 w (le_n _))
    as (w1 & sent & X & [(Hr & ->) | (Hr & _)]); rewrite Hr in H.
  - inversion H; subst. split; [lia | exact X].
  - discriminate.
Qed.

(** One primitive receive, whatever the transport does. *)
Lemma Recv_any s size w :
  0 <= size ->
  exists w' n bs,
    TCPSocket_Recv s size w = (w', inr (n, bs)) /\
    (n = -1 /\ xfer w w' [] [] \/
     n = Z.of_nat (length bs) /\ n <= size /\ xfer w w' [] bs).
Proof.
  intros Hs. unfold TCPSocket_Recv.
  assert (Hx : forall m w0,
             w_fd w0 = w_fd w -> w_state w0 = w_state w ->
             w_accepts w0 = w_accepts w -> w_check w0 = w_check w ->
             w_inbox w0 = w_inbox w -> w_trace w0 = w_trace w ->
             xfer w (emit (EvRecv (firstn m (w_inbox w)))
                          (set_inbox
                             (skipn (length (firstn m (w_inbox w))) (w_inbox w))
                             w0))
                  [] (firstn m (w_inbox w))).
  { intros m w0 F S A C I T. constructor; simpl; try assumption.
    - now rewrite firstn_skipn_length.
    - rewrite T, sent_bytes_app. simpl. reflexivity.
    - rewrite T, received_bytes_app. simpl. now rewrite app_nil_r. }
  destruct (usable s w); [destruct (w_script w) as [| [| k] sc] |];
    eexists _, _, _; (split; [reflexivity |]).
  - right. split; [reflexivity |]. split; [rewrite length_firstn; lia |].
    now apply Hx.
  - left. split; [reflexivity |]. apply xfer_emit_fault; auto.
  - right. split; [reflexivity |]. split; [rewrite length_firstn; lia |].
    now apply Hx.
  - left. split; [reflexivity |]. apply xfer_emit_fault; auto.
Qed.

(** [RecvAll] either returns what arrived, at most what was asked for and
    in the order of the stream, or raises. *)
Lemma RecvAll_loop_any s len fuel : forall acc w,
  exists w' got,
    xfer w w' [] got /\
    (Z.of_nat (length acc) <= len ->
     Z.of_nat (length (acc ++ got)) <= len) /\
    (RecvAll_loop fuel s len acc w = (w', inr (acc ++ got)) \/
     RecvAll_loop fuel s len acc w = (w', inl (SocketError "RecvAll"))).
Proof.
  induction fuel as [| fuel IH]; intros acc w.
  - exists w, []. rewrite app_nil_r. split; [apply xfer_refl |].
    split; [auto |]. left. reflexivity.
  - cbn [RecvAll_loop]. destruct (Z.of_nat (length acc) <? len) eqn:E.
    + apply Z.ltb_lt in E.
      destruct (Recv_any s (len - Z.of_nat (length acc)) w)
        as (w1 & n & bs & Hrun & H); [lia |].
      rewrite (bind_run _ _ _ _ _ Hrun).
      destruct H as [(-> & X) | (-> & Hn & X)].
      * exists w1, []. rewrite app_nil_r. split; [exact X |].
        split; [auto |]. right. reflexivity.
      * replace (Z.of_nat (length bs) =? -1) with false
          by (symmetry; apply Z.eqb_neq; lia).
        destruct (Z.of_nat (length bs) =? 0) eqn:E0.
        { apply Z.eqb_eq in E0. destruct bs; [| simpl in E0; lia].
          exists w1, []. rewrite app_nil_r. split; [exact X |].
          split; [auto |]. left. reflexivity. }
        destruct (IH (acc ++ bs) w1) as (w' & got & X' & Hl & Hr).
        exists w', (bs ++ got). rewrite app_assoc.
        split; [exact (xfer_trans _ _ _ _ _ _ _ X X') |].
        split; [| exact Hr].
        intros _. apply Hl. rewrite length_app. lia.
    + exists w, []. rewrite app_nil_r. split; [apply xfer_refl |].
      split; [auto |]. left. reflexivity.
Qed.

Lemma RecvAll_returns s len w w' n buf :
  0 <= len ->
  TCPSocket_RecvAll s len w = (w', inr (n, buf)) ->
  n = Z.of_nat (length buf) /\ n <= len /\ xfer w w' [] buf.
Proof.
  intros Hl H. unfold TCPSocket_RecvAll in H.
  apply bind_inv in H as (w1 & acc & Hrun & Hret).
  inversion Hret; subst.
  destruct (RecvAll_loop_any s len (Z.to_nat len) [] w)
    as (w2 & got & X & Hle & [Hr | Hr]); rewrite Hr in Hrun;
    inversion Hrun; subst.
  simpl in *. split; [reflexivity |]. split; [apply Hle; lia | exact X].
Qed.

Ltac list_norm :=
  repeat first
    [ rewrite app_nil_r | rewrite <- app_assoc | progress cbn [app] ].

Lemma ICHECK_EQ_inv x y what w w' u :
  ICHECK_EQ x y what w = (w', inr u) -> x = y /\ w' = w.
Proof.
  unfold ICHECK_EQ. destruct (x =? y) eqn:E; intros H; inversion H.
  split; [now apply Z.eqb_eq | reflexivity].
Qed.

Lemma Close_then_fatal_fails s msg w w' (u : unit) :
  (TCPSocket_Close s ;; LOG_FATAL msg) w = (w', inr u) -> False.
Proof.
  intros H. apply bind_inv in H as (w1 & a & _ & H). discriminate H.
Qed.

(** ** When [RPCConnect] returns *)

(** What a return of [RPCConnect] tells, in any world. *)
Lemma connect_returns_inv url port key enable_logging
    init_seq w w' endpt :
  Z.of_nat (String.length key) <= INT_MAX ->
  RPCConnect url port key enable_logging init_seq w = (w', inr endpt) ->
  exists w6 c l rk,
    length c = 4%nat /\ length l = 4%nat /\
    bytes_int c = kRPCMagic /\ bytes_int l = Z.of_nat (length rk) /\
    w_state w = Unused /\ w_accepts w = true /\
    w_inbox w = c ++ l ++ rk ++ w_inbox w6 /\
    sent_bytes (w_trace w6) =
      sent_bytes (w_trace w) ++ handshake_request key /\
    received_bytes (w_trace w6) =
      received_bytes (w_trace w) ++ c ++ l ++ rk /\
    w_fd w6 = w_fd w /\ w_state w6 = Connected /\
    endpt =
      RPCEndpoint_Create (make_SockChannel (mkSockChannel (mkSock (w_fd w))))
                         key (string_of_list_byte rk) /\
    InitRemoteSession endpt init_seq w6 = (w', inr tt).
Proof.
  intros HK H. unfold RPCConnect in H. cbv zeta in H.
  (* the address *)
  apply bind_inv in H as (w0 & addr & HAddr & H).
  unfold SockAddr_of in HAddr.
  destruct (w_resolves w); [| discriminate HAddr].
  inversion HAddr; subst w0 addr; clear HAddr.
  (* create and connect *)
  apply bind_inv in H as (w1 & sock & HCreate & H).
  unfold TCPSocket_Create in HCreate.
  destruct (w_state w) eqn:Hst; try discriminate HCreate.
  destruct (w_fd w =? INVALID_SOCKET) eqn:Hfd; [discriminate HCreate |].
  inversion HCreate; subst w1 sock; clear HCreate.
  apply bind_inv in H as (w2 & connected & HConnect & H).
  unfold TCPSocket_Connect in HConnect. simpl in HConnect.
  rewrite Z.eqb_refl in HConnect.
  destruct (w_accepts w) eqn:Hacc; simpl in HConnect;
    inversion HConnect; subst w2 connected; clear HConnect;
    apply bind_inv in H as (w3 & [] & HCheck & H); [| discriminate HCheck].
  inversion HCheck; subst w3; clear HCheck.
  set (wk := emit (EvConnect (c_string url) port true)
                  (set_state Connected
                     (emit (EvCreate (w_fd w)) (set_state Created w)))) in *.
  rewrite (to_int_small (Z.of_nat (String.length key))) in H by lia.
  rewrite (to_size_t_small (Z.of_nat (String.length key))) in H by lia.
  rewrite Nat2Z.id, firstn_c_str in H.
  (* the request *)
  apply bind_inv in H as (w4 & n1 & HS1 & H).
  apply SendAll_returns in HS1 as [_ X1].
  apply bind_inv in H as (w4' & [] & HC1 & H).
  apply ICHECK_EQ_inv in HC1 as [_ ->].
  apply bind_inv in H as (w5 & n2 & HS2 & H).
  apply SendAll_returns in HS2 as [_ X2].
  apply bind_inv in H as (w5' & [] & HC2 & H).
  apply ICHECK_EQ_inv in HC2 as [_ ->].
  apply bind_inv in H as (w6 & [] & HS3 & H).
  assert (X3 : xfer w5 w6 (list_byte_of_string key) []).
  { destruct (Z.of_nat (String.length key) =? 0) eqn:Ek; cbn [negb] in HS3.
    - inversion HS3; subst w6. apply Z.eqb_eq in Ek.
      destruct key; [apply xfer_refl | simpl in Ek; lia].
    - apply bind_inv in HS3 as (w6' & n3 & HS3 & HC3).
      apply SendAll_returns in HS3 as [_ X3].
      apply ICHECK_EQ_inv in HC3 as [_ ->]. exact X3. }
  clear HS3.
  (* the response code *)
  apply bind_inv in H as (w7 & [n4 c] & HR1 & H).
  apply RecvAll_returns in HR1 as (-> & _ & X4); [| unfold sizeof_int; lia].
  apply bind_inv in H as (w7' & [] & HC4 & H).
  apply ICHECK_EQ_inv in HC4 as [Hc ->].
  apply bind_inv in H as (w8 & [] & Hrej & H).
  assert (Hcode : bytes_int c = kRPCMagic /\ w8 = w7).
  { destruct (bytes_int c =? kRPCMagic + 2);
      [exfalso; eapply Close_then_fatal_fails; exact Hrej |].
    destruct (bytes_int c =? kRPCMagic + 1);
      [exfalso; eapply Close_then_fatal_fails; exact Hrej |].
    destruct (bytes_int c =? kRPCMagic) eqn:E; cbn [negb] in Hrej;
      [| exfalso; eapply Close_then_fatal_fails; exact Hrej].
    inversion Hrej. split; [now apply Z.eqb_eq | reflexivity]. }
  destruct Hcode as [Hcode ->]. clear Hrej.
  (* the remote key *)
  apply bind_inv in H as (w9 & [n5 l] & HR2 & H).
  apply RecvAll_returns in HR2 as (-> & _ & X5); [| unfold sizeof_int; lia].
  apply bind_inv in H as (w9' & [] & HC5 & H).
  apply ICHECK_EQ_inv in HC5 as [Hl ->].
  apply bind_inv in H as (w10 & remote_key & Hkey & H).
  assert (Hrk : exists rk,
             xfer w9 w10 [] rk /\ bytes_int l = Z.of_nat (length rk) /\
             remote_key = string_of_list_byte rk).
  { pose proof (to_int_range (le_value l)) as Hrange.
    fold (bytes_int l) in Hrange. unfold INT_MAX in Hrange.
    destruct (bytes_int l =? 0) eqn:E0; cbn [negb] in Hkey.
    - inversion Hkey; subst. exists []. apply Z.eqb_eq in E0.
      split; [apply xfer_refl |]. split; [exact E0 | reflexivity].
    - apply bind_inv in Hkey as (w10' & [] & Hres & Hkey).
      destruct (to_size_t (bytes_int l) <=? 2 ^ 63 - 1) eqn:Em;
        [| discriminate Hres].
      inversion Hres; subst w10'; clear Hres. apply Z.leb_le in Em.
      assert (Hnn : 0 <= bytes_int l).
      { destruct (Z.lt_ge_cases (bytes_int l) 0) as [Hneg | ?]; [| assumption].
        exfalso. unfold to_size_t in Em.
        rewrite <- (Z.mod_unique (bytes_int l) (2 ^ 64) (-1)
                      (bytes_int l + 2 ^ 64)) in Em by lia.
        lia. }
      assert (Hsz : to_size_t (bytes_int l) = bytes_int l)
        by (unfold to_size_t; apply Z.mod_small; lia).
      rewrite Hsz in Hkey.
      apply bind_inv in Hkey as (w11 & [n6 rk] & HR3 & Hkey).
      apply RecvAll_returns in HR3 as (-> & _ & X6); [| exact Hnn].
      apply bind_inv in Hkey as (w11' & [] & HC6 & Hkey).
      apply ICHECK_EQ_inv in HC6 as [Hn6 ->].
      inversion Hkey; subst. exists rk. auto. }
  destruct Hrk as (rk & X6 & Hlen & ->). clear Hkey.
  apply bind_inv in H as (w11 & [] & HInit & Hret).
  inversion Hret; subst w11 endpt; clear Hret.
  apply unwinding_inv in HInit.
  pose proof (xfer_trans _ _ _ _ _ _ _
                (xfer_trans _ _ _ _ _ _ _
                   (xfer_trans _ _ _ _ _ _ _
                      (xfer_trans _ _ _ _ _ _ _
                         (xfer_trans _ _ _ _ _ _ _ X1 X2) X3) X4) X5) X6)
    as [F S A C I T R].
  change (w_inbox wk) with (w_inbox w) in I.
  change (w_trace wk) with
      ((w_trace w ++ [EvCreate (w_fd w)]) ++
       [EvConnect (c_string url) port true]) in T, R.
  rewrite !sent_bytes_app in T. rewrite !received_bytes_app in R.
  cbn [sent_bytes received_bytes] in T, R.
  exists w10, c, l, rk.
  split; [apply Nat2Z.inj; rewrite Hc; reflexivity |].
  split; [apply Nat2Z.inj; rewrite Hl; reflexivity |].
  split; [exact Hcode |]. split; [exact Hlen |].
  split; [reflexivity |]. split; [reflexivity |].
  split; [rewrite I; list_norm; reflexivity |].
  split; [rewrite T; unfold handshake_request; list_norm; reflexivity |].
  split; [rewrite R; list_norm; reflexivity |].
  split; [exact F |]. split; [exact S |]. split; [reflexivity | exact HInit].
Qed.

(** X1: in any world whatever, with any short or failed transfers,
    [RPCConnect] returns an Endpoint only if the descriptor was fresh, the
    peer accepted the connection, the whole request and nothing else was
    sent, and the peer answered the code MAGIC, a key length and that many
    key bytes; the Endpoint then carries the given key and the received
    one, the socket is still connected, and the session initialisation has
    run on it and returned; the first four bytes of the peer's stream are
    the code MAGIC. *)
Theorem X1_connect_returns_only_if_accepted url port key enable_logging
    init_seq w w' endpt :
  Z.of_nat (String.length key) <= INT_MAX ->
  RPCConnect url port key enable_logging init_seq w = (w', inr endpt) ->
  exists w6 c l rk,
    length c = 4%nat /\ length l = 4%nat /\
    bytes_int c = kRPCMagic /\ bytes_int l = Z.of_nat (length rk) /\
    w_state w = Unused /\ w_accepts w = true /\
    w_inbox w = c ++ l ++ rk ++ w_inbox w6 /\
    sent_bytes (w_trace w6) =
      sent_bytes (w_trace w) ++ handshake_request key /\
    received_bytes (w_trace w6) =
      received_bytes (w_trace w) ++ c ++ l ++ rk /\
    w_fd w6 = w_fd w /\ w_state w6 = Connected /\
    endpt =
      RPCEndpoint_Create (make_SockChannel (mkSockChannel (mkSock (w_fd w))))
                         key (string_of_list_byte rk) /\
    InitRemoteSession endpt init_seq w6 = (w', inr tt) /\
    bytes_int (firstn 4 (w_inbox w)) = kRPCMagic.
Proof.
  intros HK H.
  destruct (connect_returns_inv _ _ _ _ _ _ _ _ HK H)
    as (w6 & c & l & rk & Hc & Hl & Hcode & Hlen & Hst & Hacc & Hi & Hs & Hr
        & Hfd & Hst6 & He & HInit).
  exists w6, c, l, rk.
  repeat (split; [assumption |]).
  rewrite Hi, (firstn_length_app c _ 4 (eq_sym Hc)). exact Hcode.
Qed.


(** X2: when the name of the peer has an address but the peer does not
    accept the connection, [RPCConnect] fails on its first check, with the
    text made of "Connect to ", the text [AsString] gives for the address,
    and " failed": nothing has been sent or received, and the descriptor
    that was created is not closed.  When the name has no address,
    [RPCConnect] fails in the constructor of the address, before any
    socket is created: the world is as it was. *)
Theorem X2_connect_refused url port key enable_logging init_seq w :
  w_state w = Unused -> w_fd w <> INVALID_SOCKET -> w_accepts w = false ->
  let addr := mkAddr (c_string url) port in
  let w' := emit (EvConnect (c_string url) port false)
                 (emit (EvCreate (w_fd w)) (set_state Created w)) in
  RPCConnect url port key enable_logging init_seq w =
    (if w_resolves w then
       (w', inl (CheckFailed ("Connect to " ++ AsString addr ++ " failed")))
     else (w, inl (AddressError (c_string url)))) /\
  w_state w' = Created /\
  sent_bytes (w_trace w') = sent_bytes (w_trace w) /\
  received_bytes (w_trace w') = received_bytes (w_trace w).
Proof.
  intros Hst Hfd Hacc addr w'. apply Z.eqb_neq in Hfd.
  split; [| split; [reflexivity |]].
  - unfold RPCConnect, bind, SockAddr_of.
    destruct (w_resolves w); [| reflexivity].
    unfold TCPSocket_Create, TCPSocket_Connect.
    rewrite Hst, Hfd.
    cbn [sockfd w_fd w_accepts w_state emit set_state].
    rewrite Z.eqb_refl, Hacc. reflexivity.
  - unfold w'. simpl. rewrite !sent_bytes_app, !received_bytes_app. simpl.
    now rewrite !app_nil_r.
Qed.

(** ** When the answer of the server is cut short or malformed *)

(** A receive at the end of the peer's stream. *)
Lemma Recv_eof s size w :
  usable s w = true -> no_fault (w_script w) = true -> w_inbox w = [] ->
  exists w',
    TCPSocket_Recv s size w = (w', inr (0, [])) /\
    w_inbox w' = [] /\ io w w' [EvRecv []].
Proof.
  intros U N Hi. unfold TCPSocket_Recv. rewrite U, Hi. cbv zeta.
  destruct (w_script w) as [| [| k] sc] eqn:E; [| discriminate N |];
    rewrite !firstn_nil; cbn [length skipn Z.of_nat];
    eexists; (split; [reflexivity |]); (split; [reflexivity |]);
    constructor; cbn [w_fd w_state w_accepts w_check w_inbox w_script w_trace
                      emit set_inbox set_script received_bytes app];
    try reflexivity; try exact Hi.
  - exists 0%nat. reflexivity.
  - exists 1%nat. rewrite E. reflexivity.
Qed.

(** [RecvAll] on a stream that ends too early returns all there is. *)
Lemma RecvAll_loop_eof s len fuel : forall acc w,
  let need := (Z.to_nat len - length acc)%nat in
  (need <= fuel)%nat -> (length (w_inbox w) < need)%nat ->
  usable s w = true -> no_fault (w_script w) = true ->
  exists w' evs,
    RecvAll_loop fuel s len acc w = (w', inr (acc ++ w_inbox w)) /\
    w_inbox w' = [] /\ io w w' evs.
Proof.
  induction fuel as [| fuel IH]; intros acc w need L I U N; [lia |].
  cbn [RecvAll_loop].
  replace (Z.of_nat (length acc) <? len) with true
    by (symmetry; apply Z.ltb_lt; unfold need in *; lia).
  destruct (w_inbox w) as [| b ib] eqn:Hib.
  - destruct (Recv_eof s (len - Z.of_nat (length acc)) w U N Hib)
      as (w1 & Hrun & Hi1 & Hio).
    rewrite (bind_run _ _ _ _ _ Hrun). cbn [Z.eqb]. rewrite app_nil_r.
    exists w1, [EvRecv []]. split; [reflexivity |]. split; assumption.
  - destruct (Recv_ok s (len - Z.of_nat (length acc)) w U N)
      as (n & w1 & Hn & Hn' & Hrun & Hi1 & Hio);
      [unfold need in *; lia | rewrite Hib; discriminate |].
    rewrite (bind_run _ _ _ _ _ Hrun).
    replace (Z.of_nat n =? -1) with false by (symmetry; apply Z.eqb_neq; lia).
    replace (Z.of_nat n =? 0) with false by (symmetry; apply Z.eqb_neq; lia).
    rewrite Hib in *.
    assert (Hlen : length (firstn n (b :: ib)) = n)
      by (rewrite length_firstn; lia).
    destruct (IH (acc ++ firstn n (b :: ib)) w1)
      as (w' & evs & Hrun' & Hi' & Hio').
    { rewrite length_app, Hlen. unfold need in *. lia. }
    { rewrite length_app, Hlen, Hi1, length_skipn. unfold need in *. lia. }
    { eapply io_usable; eauto. }
    { eapply io_no_fault; eauto. }
    exists w', ([EvRecv (firstn n (b :: ib))] ++ evs).
    rewrite Hrun', Hi1, <- app_assoc, firstn_skipn.
    split; [reflexivity |]. split; [exact Hi' |].
    eapply io_trans; eauto.
Qed.

Lemma RecvAll_eof s len w :
  (length (w_inbox w) < Z.to_nat len)%nat ->
  usable s w = true -> no_fault (w_script w) = true ->
  exists w' evs,
    TCPSocket_RecvAll s len w =
      (w', inr (Z.of_nat (length (w_inbox w)), w_inbox w)) /\
    w_inbox w' = [] /\ io w w' evs.
Proof.
  intros I U N. unfold TCPSocket_RecvAll.
  destruct (RecvAll_loop_eof s len (Z.to_nat len) [] w)
    as (w' & evs & Hrun & Hi & Hio);
    [simpl length; lia | simpl length; lia | exact U | exact N |].
  rewrite (bind_run _ _ _ _ _ Hrun). simpl app.
  exists w', evs. split; [reflexivity |]. split; assumption.
Qed.

Lemma sent_bytes_sends_concat chunks :
  sent_bytes (map EvSend chunks) = concat chunks.
Proof. induction chunks; simpl; congruence. Qed.

Lemma received_bytes_recvs_concat chunks :
  received_bytes (map EvRecv chunks) = concat chunks.
Proof. induction chunks; simpl; congruence. Qed.

Lemma io_xfer w w' evs :
  io w w' evs -> xfer w w' (sent_bytes evs) (received_bytes evs).
Proof.
  intros [F S A C I _ T]. constructor; try assumption.
  - now rewrite T, sent_bytes_app.
  - now rewrite T, received_bytes_app.
Qed.

(** Connecting and sending the request on a reachable listener; [K] is what
    the function does next. *)
Lemma handshake_sent url port key w :
  reachable w = true ->
  Z.of_nat (String.length key) <= INT_MAX ->
  exists w3,
    w_fd w3 = w_fd w /\ w_state w3 = Connected /\
    no_fault (w_script w3) = true /\ w_inbox w3 = w_inbox w /\
    sent_bytes (w_trace w3) =
      sent_bytes (w_trace w) ++ handshake_request key /\
    received_bytes (w_trace w3) = received_bytes (w_trace w) /\
    forall B (K : TCPSocket -> M B),
    (addr <- SockAddr_of (c_string url) port ;;
     sock <- TCPSocket_Create (mkSock INVALID_SOCKET) (ss_family addr) ;;
     connected <- TCPSocket_Connect sock addr ;;
     ICHECK connected ("Connect to " ++ AsString addr ++ " failed") ;;
     n <- TCPSocket_SendAll sock (int_bytes kRPCMagic) ;;
     ICHECK_EQ n sizeof_int
               "sock.SendAll(&code, sizeof(code)) == sizeof(code)" ;;
     n <- TCPSocket_SendAll sock
            (int_bytes (to_int (Z.of_nat (String.length key)))) ;;
     ICHECK_EQ n sizeof_int
               "sock.SendAll(&keylen, sizeof(keylen)) == sizeof(keylen)" ;;
     (if negb (to_int (Z.of_nat (String.length key)) =? 0) then
        n <- TCPSocket_SendAll sock
               (firstn (Z.to_nat (to_size_t
                                    (to_int (Z.of_nat (String.length key)))))
                       (c_str key)) ;;
        ICHECK_EQ n (to_size_t (to_int (Z.of_nat (String.length key))))
                  "sock.SendAll(key.c_str(), keylen) == keylen"
      else ret tt) ;;
     K sock) w
    = K (mkSock (w_fd w)) w3.
Proof.
  intros HR HK.
  destruct (reachable_cases w HR) as (Hst & Hfd & Hacc & Hnf & Hres).
  set (sock := mkSock (w_fd w)).
  set (addr := mkAddr (c_string url) port).
  assert (HAddr : SockAddr_of (c_string url) port w = (w, inr addr)).
  { unfold SockAddr_of. now rewrite Hres. }
  set (wc := emit (EvCreate (w_fd w)) (set_state Created w)).
  set (wk := emit (EvConnect (c_string url) port true)
                  (set_state Connected wc)).
  assert (HCreate :
            TCPSocket_Create (mkSock INVALID_SOCKET) (ss_family addr) w =
              (wc, inr sock)).
  { unfold TCPSocket_Create. rewrite Hst.
    apply Z.eqb_neq in Hfd. now rewrite Hfd. }
  assert (HConnect :
            TCPSocket_Connect sock addr wc = (wk, inr true)).
  { unfold TCPSocket_Connect. simpl. now rewrite Z.eqb_refl, Hacc. }
  assert (Uk : usable sock wk = true).
  { unfold usable. simpl. now rewrite Z.eqb_refl. }
  destruct (SendAll_ok sock (int_bytes kRPCMagic) wk Uk Hnf)
    as (w1 & S1 & Hrun1 & Hio1 & Hc1 & _).
  change (Z.of_nat (length (int_bytes kRPCMagic))) with sizeof_int in Hrun1.
  destruct (SendAll_ok sock (int_bytes (Z.of_nat (String.length key))) w1)
    as (w2 & S2 & Hrun2 & Hio2 & Hc2 & _);
    [eapply io_usable; eauto | eapply io_no_fault; eauto |].
  change (Z.of_nat (length (int_bytes (Z.of_nat (String.length key)))))
    with sizeof_int in Hrun2.
  pose proof (io_trans _ _ _ _ _ Hio1 Hio2) as Hio12.
  assert (Hkey : exists w3 S3,
             (if negb (Z.of_nat (String.length key) =? 0) then
                n <- TCPSocket_SendAll sock (list_byte_of_string key) ;;
                ICHECK_EQ n (Z.of_nat (String.length key))
                          "sock.SendAll(key.c_str(), keylen) == keylen"
              else ret tt) w2 = (w3, inr tt) /\
             io w2 w3 (map EvSend S3) /\
             concat S3 = list_byte_of_string key).
  { destruct (Z.of_nat (String.length key) =? 0) eqn:Ek; cbn [negb].
    - exists w2, []. split; [reflexivity |]. split; [apply io_refl |].
      apply Z.eqb_eq in Ek. destruct key; [reflexivity | simpl in Ek; lia].
    - destruct (SendAll_ok sock (list_byte_of_string key) w2)
        as (w3 & S3 & Hrun3 & Hio3 & Hc3 & _);
        [eapply io_usable; eauto | eapply io_no_fault; eauto |].
      exists w3, S3. rewrite (bind_run _ _ _ _ _ Hrun3).
      rewrite length_list_byte_of_string, ICHECK_EQ_refl. auto. }
  destruct Hkey as (w3 & S3 & Hrun3 & Hio3 & Hc3).
  pose proof (io_trans _ _ _ _ _ Hio12 Hio3) as Hio.
  pose proof (io_xfer _ _ _ Hio) as [F S A C I T R].
  rewrite !sent_bytes_app, !sent_bytes_sends_concat in T.
  rewrite !received_bytes_app, !received_bytes_sends in R, I.
  exists w3.
  split; [exact F |]. split; [exact S |].
  split; [eapply io_no_fault; eauto |].
  split; [symmetry; exact I |].
  split.
  { rewrite T, Hc1, Hc2, Hc3. unfold handshake_request, wk, wc. simpl w_trace.
    rewrite !sent_bytes_app. simpl. list_norm. reflexivity. }
  split.
  { rewrite R. unfold wk, wc. simpl w_trace.
    rewrite !received_bytes_app. simpl. list_norm. reflexivity. }
  intros B K.
  rewrite (bind_run _ _ _ _ _ HAddr).
  rewrite (bind_run _ _ _ _ _ HCreate), (bind_run _ _ _ _ _ HConnect).
  rewrite (bind_run _ _ wk wk tt) by reflexivity.
  rewrite (to_int_small (Z.of_nat (String.length key))) by lia.
  rewrite (to_size_t_small (Z.of_nat (String.length key))) by lia.
  rewrite Nat2Z.id, firstn_c_str.
  rewrite (bind_run _ _ _ _ _ Hrun1), (bind_run _ _ _ _ _ (ICHECK_EQ_refl _ _ _)).
  rewrite (bind_run _ _ _ _ _ Hrun2), (bind_run _ _ _ _ _ (ICHECK_EQ_refl _ _ _)).
  rewrite (bind_run _ _ _ _ _ Hrun3).
  reflexivity.
Qed.

Lemma ICHECK_EQ_fails x y what w :
  x <> y -> ICHECK_EQ x y what w = (w, inl (CheckFailed what)).
Proof. intros H. unfold ICHECK_EQ. apply Z.eqb_neq in H. now rewrite H. Qed.

(** X3: when the peer's stream ends before the four bytes of the response
    code have arrived, [RPCConnect] fails on the check of that receive; the
    whole request has been sent, all that arrived has been consumed, and
    the socket is left connected: it is not closed. *)
Theorem X3_connect_answer_cut_short url port key enable_logging init_seq w :
  reachable w = true ->
  Z.of_nat (String.length key) <= INT_MAX ->
  (length (w_inbox w) < 4)%nat ->
  exists w',
    RPCConnect url port key enable_logging init_seq w =
      (w', inl (CheckFailed
                  "sock.RecvAll(&code, sizeof(code)) == sizeof(code)")) /\
    w_state w' = Connected /\ w_inbox w' = [] /\
    sent_bytes (w_trace w') =
      sent_bytes (w_trace w) ++ handshake_request key /\
    received_bytes (w_trace w') = received_bytes (w_trace w) ++ w_inbox w.
Proof.
  intros HR HK Hshort.
  destruct (handshake_sent url port key w HR HK)
    as (w3 & F3 & S3 & N3 & I3 & T3 & R3 & Hrun).
  assert (U3 : usable (mkSock (w_fd w)) w3 = true).
  { unfold usable. simpl. now rewrite F3, S3, Z.eqb_refl. }
  destruct (RecvAll_eof (mkSock (w_fd w)) sizeof_int w3)
    as (w' & evs & Hrecv & Hi & _); [rewrite I3; exact Hshort | auto | auto |].
  assert (H0 : 0 <= sizeof_int) by (unfold sizeof_int; lia).
  pose proof (RecvAll_returns _ _ _ _ _ _ H0 Hrecv)
    as (_ & _ & [F S A C I T R]).
  exists w'. split.
  { unfold RPCConnect. cbv zeta. rewrite Hrun.
    rewrite (bind_run _ _ _ _ _ Hrecv).
    erewrite bind_fail; [reflexivity |].
    apply ICHECK_EQ_fails. rewrite I3. unfold sizeof_int. lia. }
  split; [congruence |]. split; [exact Hi |].
  split; [rewrite T, T3; now rewrite app_nil_r |].
  rewrite R, R3, I3. reflexivity.
Qed.

Lemma sent_bytes_recvs_nil chunks : sent_bytes (map EvRecv chunks) = [].
Proof. induction chunks; simpl; congruence. Qed.

Lemma connected_after_sent url port w w' Sm Sl Sk R :
  connected_after url port w w'
    (map EvSend Sm ++ map EvSend Sl ++ map EvSend Sk ++ map EvRecv R) ->
  sent_bytes (w_trace w') =
    sent_bytes (w_trace w) ++ concat Sm ++ concat Sl ++ concat Sk.
Proof.
  intros H. rewrite (ca_trace _ _ _ _ _ H).
  change (EvCreate (w_fd w) :: EvConnect url port true :: ?x) with
      ([EvCreate (w_fd w); EvConnect url port true] ++ x).
  rewrite !sent_bytes_app, !sent_bytes_sends_concat, sent_bytes_recvs_nil.
  simpl. now rewrite app_nil_r.
Qed.

(** X4: when the server accepts but announces a negative key length,
    [RPCConnect] fails while sizing the remote key: nothing after the four
    bytes of the length is read, the session initialisation does not run,
    and the socket is left connected. *)
Theorem X4_connect_negative_key_length url port key enable_logging init_seq
    w c l rest :
  reachable w = true ->
  Z.of_nat (String.length key) <= INT_MAX ->
  w_inbox w = c ++ l ++ rest ->
  length c = 4%nat -> length l = 4%nat ->
  bytes_int c = kRPCMagic -> bytes_int l < 0 ->
  exists w',
    RPCConnect url port key enable_logging init_seq w =
      (w', inl LengthError) /\
    w_state w' = Connected /\ w_inbox w' = rest /\
    sent_bytes (w_trace w') =
      sent_bytes (w_trace w) ++ handshake_request key.
Proof.
  intros HR HK HI HC HL Hcode Hneg.
  destruct (handshake_prefix url port key w c (l ++ rest) HR HK HI HC)
    as (w4 & Sm & Sl & Sk & Rc & Hca & HSm & HSl & HSk & HRc & _ & Hib & Hrun).
  pose proof (connected_after_usable _ _ _ _ _ Hca) as U4.
  destruct (RecvAll_ok (mkSock (w_fd w)) sizeof_int w4)
    as (w5 & Rl & Hrun5 & Hib5 & Hio5 & _).
  { unfold sizeof_int. lia. }
  { rewrite Hib, length_app, HL. unfold sizeof_int. simpl. lia. }
  { exact U4. }
  { exact (ca_script _ _ _ _ _ Hca). }
  assert (H4 : Z.to_nat sizeof_int = length l) by (rewrite HL; reflexivity).
  rewrite Hib, (firstn_length_app l _ _ H4) in *.
  rewrite (skipn_length_app l _ _ H4) in Hib5.
  pose proof (to_int_range (le_value l)) as Hrange.
  fold (bytes_int l) in Hrange.
  exists w5. split.
  { unfold RPCConnect. cbv zeta. rewrite Hrun.
    rewrite (bind_run _ _ _ _ _ (ICHECK_EQ_refl _ _ _)).
    rewrite Hcode.
    replace (kRPCMagic =? kRPCMagic + 2) with false
      by (symmetry; apply Z.eqb_neq; lia).
    replace (kRPCMagic =? kRPCMagic + 1) with false
      by (symmetry; apply Z.eqb_neq; lia).
    rewrite Z.eqb_refl. cbn [negb].
    rewrite (bind_run _ _ w4 w4 tt) by reflexivity.
    rewrite (bind_run _ _ _ _ _ Hrun5).
    rewrite (bind_run _ _ _ _ _ (ICHECK_EQ_refl _ _ _)).
    replace (bytes_int l =? 0) with false by (symmetry; apply Z.eqb_neq; lia).
    cbn [negb].
    replace (to_size_t (bytes_int l) <=? 2 ^ 63 - 1) with false.
    - reflexivity.
    - symmetry. apply Z.leb_gt. unfold to_size_t.
      rewrite <- (Z.mod_unique (bytes_int l) (2 ^ 64) (-1)
                    (bytes_int l + 2 ^ 64)) by lia.
      lia. }
  split; [rewrite (io_state _ _ _ Hio5); exact (ca_state _ _ _ _ _ Hca) |].
  split; [exact Hib5 |].
  pose proof (io_xfer _ _ _ Hio5) as X.
  rewrite (xf_sent _ _ _ _ X), sent_bytes_recvs_nil, app_nil_r.
  rewrite (connected_after_sent _ _ _ _ _ _ _ _ Hca), HSm, HSl, HSk.
  reflexivity.
Qed.

(** X5: when the server accepts and announces a key longer than what it
    then sends before its stream ends, [RPCConnect] fails on the check of
    the receive of the remote key: no Endpoint is made, the session
    initialisation does not run, and the socket is left connected. *)
Theorem X5_connect_remote_key_cut_short url port key enable_logging init_seq
    w c l part :
  reachable w = true ->
  Z.of_nat (String.length key) <= INT_MAX ->
  w_inbox w = c ++ l ++ part ->
  length c = 4%nat -> length l = 4%nat ->
  bytes_int c = kRPCMagic -> Z.of_nat (length part) < bytes_int l ->
  exists w',
    RPCConnect url port key enable_logging init_seq w =
      (w', inl (CheckFailed
                  "sock.RecvAll(&remote_key[0], keylen) == keylen")) /\
    w_state w' = Connected /\ w_inbox w' = [] /\
    sent_bytes (w_trace w') =
      sent_bytes (w_trace w) ++ handshake_request key /\
    received_bytes (w_trace w') = received_bytes (w_trace w) ++ w_inbox w.
Proof.
  intros HR HK HI HC HL Hcode Hpart.
  destruct (handshake_prefix url port key w c (l ++ part) HR HK HI HC)
    as (w4 & Sm & Sl & Sk & Rc & Hca & HSm & HSl & HSk & HRc & _ & Hib & Hrun).
  pose proof (connected_after_usable _ _ _ _ _ Hca) as U4.
  destruct (RecvAll_ok (mkSock (w_fd w)) sizeof_int w4)
    as (w5 & Rl & Hrun5 & Hib5 & Hio5 & HRl & _).
  { unfold sizeof_int. lia. }
  { rewrite Hib, length_app, HL. unfold sizeof_int. simpl. lia. }
  { exact U4. }
  { exact (ca_script _ _ _ _ _ Hca). }
  assert (H4 : Z.to_nat sizeof_int = length l) by (rewrite HL; reflexivity).
  rewrite Hib, (firstn_length_app l _ _ H4) in *.
  rewrite (skipn_length_app l _ _ H4) in Hib5.
  pose proof (to_int_range (le_value l)) as Hrange.
  fold (bytes_int l) in Hrange. unfold INT_MAX in Hrange.
  assert (Hsz : to_size_t (bytes_int l) = bytes_int l)
    by (unfold to_size_t; apply Z.mod_small; lia).
  destruct (RecvAll_eof (mkSock (w_fd w)) (bytes_int l) w5)
    as (w6 & evs & Hrun6 & Hib6 & _).
  { rewrite Hib5. lia. }
  { eapply io_usable; eauto. }
  { eapply io_no_fault; eauto. exact (ca_script _ _ _ _ _ Hca). }
  assert (H0 : 0 <= bytes_int l) by lia.
  pose proof (RecvAll_returns _ _ _ _ _ _ H0 Hrun6) as (_ & _ & X6).
  exists w6. split.
  { unfold RPCConnect. cbv zeta. rewrite Hrun.
    rewrite (bind_run _ _ _ _ _ (ICHECK_EQ_refl _ _ _)).
    rewrite Hcode.
    replace (kRPCMagic =? kRPCMagic + 2) with false
      by (symmetry; apply Z.eqb_neq; lia).
    replace (kRPCMagic =? kRPCMagic + 1) with false
      by (symmetry; apply Z.eqb_neq; lia).
    rewrite Z.eqb_refl. cbn [negb].
    rewrite (bind_run _ _ w4 w4 tt) by reflexivity.
    rewrite (bind_run _ _ _ _ _ Hrun5).
    rewrite (bind_run _ _ _ _ _ (ICHECK_EQ_refl _ _ _)).
    replace (bytes_int l =? 0) with false by (symmetry; apply Z.eqb_neq; lia).
    cbn [negb]. rewrite Hsz.
    replace (bytes_int l <=? 2 ^ 63 - 1) with true
      by (symmetry; apply Z.leb_le; lia).
    erewrite bind_fail; [reflexivity |].
    rewrite (bind_run _ _ w5 w5 tt) by reflexivity.
    rewrite (bind_run _ _ _ _ _ Hrun6).
    erewrite bind_fail; [reflexivity |].
    apply ICHECK_EQ_fails. rewrite Hib5. lia. }
  pose proof (io_xfer _ _ _ Hio5) as X5.
  pose proof (xfer_trans _ _ _ _ _ _ _ X5 X6) as [F S A C I T R].
  rewrite sent_bytes_recvs_nil in T. rewrite received_bytes_recvs_concat in R.
  split; [rewrite S; exact (ca_state _ _ _ _ _ Hca) |].
  split; [exact Hib6 |].
  split.
  { rewrite T, (connected_after_sent _ _ _ _ _ _ _ _ Hca), HSm, HSl, HSk.
    list_norm. reflexivity. }
  rewrite R, Hib5, HRl.
  rewrite (ca_trace _ _ _ _ _ Hca).
  change (EvCreate (w_fd w) :: EvConnect (c_string url) port true :: ?x) with
      ([EvCreate (w_fd w); EvConnect (c_string url) port true] ++ x).
  rewrite !received_bytes_app, !received_bytes_sends,
    received_bytes_recvs_concat, HRc, HI.
  simpl. list_norm. reflexivity.
Qed.

(** ** Integers on the wire *)

Lemma bytes_int_int_bytes z :
  - 2 ^ 31 <= z <= INT_MAX -> bytes_int (int_bytes z) = z.
Proof.
  unfold INT_MAX. intros H. unfold bytes_int, int_bytes.
  rewrite le_value_le_bytes. change (8 * Z.of_nat 4) with 32.
  unfold to_int. rewrite Zplus_mod_idemp_l, Z.mod_small by lia. lia.
Qed.

(** X6: an [int] put on the wire the way [RPCConnect] sends its magic
    number and key length reads back as itself the way [RPCConnect] reads
    the response code and the remote key length.  Hence against a server
    that writes the code MAGIC, the length of its key and the key in that
    same way, on a reachable connection, [RPCConnect] consumes exactly that
    answer and hands the session initialisation an Endpoint whose remote
    key is the server's key; it returns that Endpoint when the
    initialisation returns, and tears it down when the initialisation
    raises. *)
Theorem X6_connect_understands_raw_ints url port key enable_logging init_seq
    w rk rest :
  reachable w = true ->
  Z.of_nat (String.length key) <= INT_MAX ->
  - 2 ^ 31 <= kRPCMagic <= INT_MAX ->
  Z.of_nat (length rk) <= INT_MAX ->
  w_inbox w =
    int_bytes kRPCMagic ++ int_bytes (Z.of_nat (length rk)) ++ rk ++ rest ->
  (forall z, - 2 ^ 31 <= z <= INT_MAX ->
             length (int_bytes z) = 4%nat /\ bytes_int (int_bytes z) = z) /\
  exists w6 endpt,
    endpt =
      RPCEndpoint_Create (make_SockChannel (mkSockChannel (mkSock (w_fd w))))
                         key (string_of_list_byte rk) /\
    w_inbox w6 = rest /\ w_state w6 = Connected /\
    sent_bytes (w_trace w6) =
      sent_bytes (w_trace w) ++ handshake_request key /\
    (forall w7, InitRemoteSession endpt init_seq w6 = (w7, inr tt) ->
                RPCConnect url port key enable_logging init_seq w =
                  (w7, inr endpt)) /\
    (forall w7 e, InitRemoteSession endpt init_seq w6 = (w7, inl e) ->
                  RPCConnect url port key enable_logging init_seq w =
                    (fst (RPCEndpoint_dtor endpt w7), inl e)).
Proof.
  intros HR HK HM Hrk HI.
  split.
  { intros z Hz. split; [reflexivity | now apply bytes_int_int_bytes]. }
  destruct (connect_accepted url port key enable_logging init_seq w
              (int_bytes kRPCMagic) (int_bytes (Z.of_nat (length rk))) rk rest
              HR HK HI eq_refl eq_refl)
    as (w6 & Sm & Sl & Sk & Rc & Rl & Rk & Hca & HSm & HSl & HSk & _ & _ & _
        & _ & Hib & Hrun).
  { now apply bytes_int_int_bytes. }
  { apply bytes_int_int_bytes. lia. }
  cbv zeta in Hrun.
  exists w6. eexists. split; [reflexivity |]. split; [exact Hib |].
  split; [exact (ca_state _ _ _ _ _ Hca) |].
  split; [| rewrite Hrun; apply init_outcome].
  rewrite (ca_trace _ _ _ _ _ Hca).
  change (EvCreate (w_fd w) :: EvConnect (c_string url) port true :: ?x) with
      ([EvCreate (w_fd w); EvConnect (c_string url) port true] ++ x).
  rewrite !sent_bytes_app, !sent_bytes_sends_concat, !sent_bytes_recvs_nil.
  rewrite HSm, HSl, HSk. simpl. list_norm. reflexivity.
Qed.

(** ** [RPCClientConnect] *)

(** X7: in any world, [RPCClientConnect] returns a module only when the
    handshake was carried out and accepted under the key ["client:"]
    followed by the given key: that prefixed key is what was sent, and the
    module is the session module of a client session over an Endpoint that
    records the prefixed key and the key the server sent.  When
    [RPCConnect] fails, [RPCClientConnect] fails with the same error in the
    same world. *)
Theorem X7_client_connect_outcome url port key enable_logging init_seq w w' :
  Z.of_nat (String.length key) + 7 <= INT_MAX ->
  (forall m,
     RPCClientConnect url port key enable_logging init_seq w = (w', inr m) ->
     exists w6 c l rk endpt,
       length c = 4%nat /\ length l = 4%nat /\
       bytes_int c = kRPCMagic /\ bytes_int l = Z.of_nat (length rk) /\
       w_inbox w = c ++ l ++ rk ++ w_inbox w6 /\
       sent_bytes (w_trace w6) =
         sent_bytes (w_trace w) ++ handshake_request ("client:" ++ key) /\
       name_ endpt = ("client:" ++ key)%string /\
       remote_key_ endpt = string_of_list_byte rk /\
       InitRemoteSession endpt init_seq w6 = (w', inr tt) /\
       m = CreateRPCSessionModule (CreateClientSession endpt)) /\
  (forall e,
     RPCConnect url port ("client:" ++ key) enable_logging init_seq w =
       (w', inl e) ->
     RPCClientConnect url port key enable_logging init_seq w = (w', inl e)).
Proof.
  intros HK. split.
  - intros m H. unfold RPCClientConnect in H.
    apply bind_inv in H as (w1 & endpt & Hrun & Hret).
    inversion Hret; subst.
    apply connect_returns_inv in Hrun
      as (w6 & c & l & rk & Hc & Hl & Hcode & Hlen & _ & _ & Hi & Hs & _ & _
          & _ & He & HInit); [| simpl String.length; lia].
    exists w6, c, l, rk, endpt. subst endpt. auto 12.
  - intros e H. unfold RPCClientConnect. now rewrite (bind_fail _ _ _ _ _ H).
Qed.

(** ** Using a descriptor that has been closed *)

Lemma closed_channel_raises (c : SockChannel) (data : list byte) (size : Z) w :
  w_state w = Closed ->
  SockChannel_Send c data w =
    (emit EvSendFault w, inl (SocketError "SockChannel::Send")) /\
  SockChannel_Recv c size w =
    (emit EvRecvFault w, inl (SocketError "SockChannel::Recv")).
Proof.
  intros H.
  unfold SockChannel_Send, SockChannel_Recv, bind, TCPSocket_Send,
    TCPSocket_Recv, usable.
  rewrite H, andb_false_r. split; reflexivity.
Qed.

(** X8: after a handshake that the server rejected, the descriptor is
    closed for good: every send and every receive on a socket-backed
    channel raises a socket error, and nothing is transferred. *)
Theorem X8_io_after_rejected_connect url port key enable_logging init_seq
    w c rest (ch : SockChannel) (data : list byte) (size : Z) :
  reachable w = true ->
  Z.of_nat (String.length key) <= INT_MAX ->
  w_inbox w = c ++ rest -> length c = 4%nat ->
  bytes_int c <> kRPCMagic ->
  let w' := fst (RPCConnect url port key enable_logging init_seq w) in
  SockChannel_Send ch data w' =
    (emit EvSendFault w', inl (SocketError "SockChannel::Send")) /\
  SockChannel_Recv ch size w' =
    (emit EvRecvFault w', inl (SocketError "SockChannel::Recv")) /\
  sent_bytes (w_trace (emit EvSendFault w')) = sent_bytes (w_trace w') /\
  w_inbox (emit EvRecvFault w') = rest.
Proof.
  intros HR HK HI HC Hcode w'.
  destruct (connect_rejected url port key enable_logging init_seq
              w c rest HR HK HI HC Hcode)
    as (w4 & Sm & Sl & Sk & R & Hca & _ & _ & _ & HRc & _ & Hrun).
  assert (Hw : w' = closed w4) by (unfold w'; now rewrite Hrun).
  destruct (closed_channel_raises ch data size w') as [Hs Hr];
    [rewrite Hw; reflexivity |].
  split; [exact Hs |]. split; [exact Hr |]. split.
  - simpl. rewrite sent_bytes_app. simpl. now rewrite app_nil_r.
  - rewrite Hw. simpl.
    pose proof (ca_inbox _ _ _ _ _ Hca) as Hi.
    rewrite !received_bytes_app, !received_bytes_sends,
      received_bytes_recvs_concat, HRc, HI in Hi.
    simpl in Hi. now apply app_inv_head in Hi.
Qed.

(** X9: when the socket of a channel is the connected descriptor and the
    validity check finds it good, the destructor closes it and does
    nothing else: no byte is sent or received and the peer's stream is
    left as it was; afterwards every send and receive on a channel over
    that descriptor raises a socket error. *)
Theorem X9_teardown_closes (c c' : SockChannel) (data : list byte) (size : Z)
    (w : world) :
  sockfd (sock_ c) = w_fd w -> w_fd w <> INVALID_SOCKET ->
  w_check w = Some false ->
  let w' := fst (SockChannel_dtor c w) in
  w' = closed w /\ w_state w' = Closed /\ w_inbox w' = w_inbox w /\
  sent_bytes (w_trace w') = sent_bytes (w_trace w) /\
  received_bytes (w_trace w') = received_bytes (w_trace w) /\
  SockChannel_Send c' data w' =
    (emit EvSendFault w', inl (SocketError "SockChannel::Send")) /\
  SockChannel_Recv c' size w' =
    (emit EvRecvFault w', inl (SocketError "SockChannel::Recv")).
Proof.
  intros Hfd Hv Hc w'.
  assert (Hw : w' = closed w).
  { unfold w', SockChannel_dtor, try_catch, bind, TCPSocket_BadSocket,
      TCPSocket_Close, closed.
    apply Z.eqb_neq in Hv. rewrite Hfd, Hv, Hc. cbn [negb].
    rewrite Z.eqb_refl. reflexivity. }
  rewrite Hw. split; [reflexivity |]. split; [reflexivity |].
  split; [reflexivity |].
  split; [unfold closed; simpl; rewrite sent_bytes_app; simpl;
          now rewrite app_nil_r |].
  split; [unfold closed; simpl; rewrite received_bytes_app; simpl;
          now rewrite app_nil_r |].
  now apply closed_channel_raises.
Qed.

(** ** The end of an Endpoint *)

(** X14: the server loop on a descriptor takes the descriptor with it: when
    the loop is over, whether it returned or raised, and the socket is
    still good, [RPCServerLoop] has closed the descriptor it was given;
    its outcome is that of the loop, and every later send and receive on a
    socket-backed channel raises a socket error. *)
Theorem X14_server_loop_closes_descriptor (fd : Z) (w : world)
    (ch : SockChannel) (data : list byte) (size : Z) :
  let endpt :=
    RPCEndpoint_Create (make_SockChannel (mkSockChannel (mkSock fd)))
                       "SockServerLoop" "" in
  let loop := ServerLoop endpt w in
  let r := RPCServerLoop_sockfd fd w in
  w_fd (fst loop) = fd -> fd <> INVALID_SOCKET ->
  w_check (fst loop) = Some false ->
  snd r = snd loop /\ w_state (fst r) = Closed /\
  w_trace (fst r) = w_trace (fst loop) ++ [EvClose fd] /\
  SockChannel_Send ch data (fst r) =
    (emit EvSendFault (fst r), inl (SocketError "SockChannel::Send")) /\
  SockChannel_Recv ch size (fst r) =
    (emit EvRecvFault (fst r), inl (SocketError "SockChannel::Recv")).
Proof.
  intros endpt loop r Hfd Hv Hc.
  assert (Hr : r = (closed (fst loop), snd loop)).
  { unfold r, RPCServerLoop_sockfd. cbv zeta.
    rewrite with_temporary_run by (intros; apply RPCChannel_dtor_returns).
    fold endpt. fold loop. unfold RPCEndpoint_dtor, endpt.
    cbn [channel_ RPCEndpoint_Create RPCChannel_dtor].
    rewrite SockChannel_dtor_closes; [reflexivity | | |];
      cbn [sock_ sockfd]; congruence. }
  rewrite Hr. cbn [fst snd]. split; [reflexivity |]. split; [reflexivity |].
  split; [unfold closed; cbn [w_trace emit set_state]; now rewrite Hfd |].
  now apply closed_channel_raises.
Qed.


(** ** The stream handler of [rpc.ReturnException] *)

(** X10: the stream handler never raises: where a socket-backed channel
    raises a socket error, [SimpleSockHandler::Write] and
    [SimpleSockHandler::Read] return the count 2^64-1, and in every other
    case they return what the channel returns; in all cases they act on
    the socket exactly as the channel does. *)
Theorem X10_handler_returns_fault_as_count (h : SimpleSockHandler)
    (data : list byte) (size : Z) (w : world) :
  Z.of_nat (length data) < 2 ^ 64 - 1 -> 0 <= size < 2 ^ 64 - 1 ->
  let c := mkSockChannel (handler_sock_ h) in
  (exists w' n,
     SimpleSockHandler_Write h data w = (w', inr n) /\
     (n = 2 ^ 64 - 1 /\
      SockChannel_Send c data w =
        (w', inl (SocketError "SockChannel::Send")) /\
      sent_bytes (w_trace w') = sent_bytes (w_trace w) \/
      0 <= n <= Z.of_nat (length data) /\
      SockChannel_Send c data w = (w', inr n) /\
      w_trace w' = w_trace w ++ [EvSend (firstn (Z.to_nat n) data)])) /\
  (exists w' n bs,
     SimpleSockHandler_Read h size w = (w', inr (n, bs)) /\
     (n = 2 ^ 64 - 1 /\
      SockChannel_Recv c size w =
        (w', inl (SocketError "SockChannel::Recv")) /\
      w_inbox w' = w_inbox w \/
      n = Z.of_nat (length bs) /\ n <= size /\
      SockChannel_Recv c size w = (w', inr (n, bs)) /\
      w_inbox w = bs ++ w_inbox w')).
Proof.
  intros Hd Hs c. split.
  - destruct (Send_result (handler_sock_ h) data w) as (w' & n & Hrun & H).
    unfold SimpleSockHandler_Write, SockChannel_Send. subst c. cbn [sock_].
    rewrite !(bind_run _ _ _ _ _ Hrun).
    destruct H as [[-> Ht] | [Hn Ht]].
    + exists w', (2 ^ 64 - 1). split; [reflexivity |]. left. auto.
    + exists w', n. unfold ret, to_size_t. rewrite Z.mod_small by lia.
      split; [reflexivity |]. right. split; [exact Hn |]. split; [| exact Ht].
      replace (n =? -1) with false by (symmetry; apply Z.eqb_neq; lia).
      reflexivity.
  - destruct (Recv_result (handler_sock_ h) size w) as (w' & n & bs & Hrun & H);
      [lia |].
    unfold SimpleSockHandler_Read, SockChannel_Recv. subst c. cbn [sock_].
    rewrite !(bind_run _ _ _ _ _ Hrun).
    destruct H as [(-> & Hi & _) | (Hn & -> & Hi & _)].
    + exists w', (2 ^ 64 - 1), bs. split; [reflexivity |]. left. auto.
    + exists w', (Z.of_nat (length bs)), bs.
      unfold ret, to_size_t. rewrite Z.mod_small by lia.
      split; [reflexivity |]. right. split; [reflexivity |].
      split; [lia |]. split; [| exact Hi].
      replace (Z.of_nat (length bs) =? -1) with false
        by (symmetry; apply Z.eqb_neq; lia).
      reflexivity.
Qed.

Lemma until_nul_no_nul buf :
  forallb (fun b => negb (is_nul b)) (until_nul buf) = true.
Proof.
  induction buf as [| b buf IH]; simpl; [reflexivity |].
  destruct (is_nul b) eqn:E; simpl; [reflexivity |]. now rewrite E.
Qed.

Lemma length_until_nul_c_str msg :
  (length (until_nul (c_str msg)) <= String.length msg)%nat.
Proof.
  unfold c_str. rewrite <- (length_list_byte_of_string msg).
  induction (list_byte_of_string msg) as [| b bs IH]; simpl.
  - reflexivity.
  - destruct (is_nul b); simpl; lia.
Qed.

(** X11: on a connected socket whose sends are complete, the text of the
    frame [rpc.ReturnException] writes, and so the message the receiving
    side decodes, is the message cut at its first NUL character; it is the
    message itself exactly when the message contains no NUL. *)
Theorem X11_exception_text_is_c_string (sockfd : Z) (msg : string)
    (w : world) :
  usable (mkSock sockfd) w = true ->
  whole_transfers (length (exception_frame (until_nul (c_str msg))))
                  (w_script w) = true ->
  Z.of_nat (String.length msg) < 2 ^ 64 ->
  let r := rpc_ReturnException sockfd msg w in
  snd r = inr tt /\
  sent_bytes (w_trace (fst r)) =
    sent_bytes (w_trace w) ++ exception_frame (until_nul (c_str msg)) /\
  decode_exception (exception_frame (until_nul (c_str msg))) =
    Some (c_string msg) /\
  (c_string msg = msg <->
   forallb (fun b => negb (is_nul b)) (list_byte_of_string msg) = true).
Proof.
  intros U W Hlen r.
  set (text := until_nul (c_str msg)) in *.
  pose proof (length_until_nul_c_str msg) as Htext. fold text in Htext.
  assert (Hframe : length (exception_frame text) =
                   (length exception_marker + (8 + length text))%nat).
  { unfold exception_frame, uint64_bytes.
    now rewrite !length_app, length_le_bytes. }
  destruct (Send_whole _ exception_marker w _ U W) as (w1 & R1 & U1 & W1 & T1);
    [lia |].
  destruct (Send_whole _ (uint64_bytes (Z.of_nat (length text))) w1 _ U1 W1)
    as (w2 & R2 & U2 & W2 & T2).
  { unfold uint64_bytes. rewrite length_le_bytes. lia. }
  destruct (Send_whole _ text w2 _ U2 W2) as (w3 & R3 & U3 & W3 & T3); [lia |].
  assert (Hrun : r = (w3, inr tt)).
  { subst r. unfold rpc_ReturnException, ReturnException. fold text.
    unfold SimpleSockHandler_Write. cbn [handler_sock_].
    unfold bind. rewrite R1. cbn [ret]. rewrite R2. cbn [ret]. rewrite R3.
    reflexivity. }
  rewrite Hrun. cbn [fst snd]. split; [reflexivity |].
  split.
  { rewrite T3, T2, T1, !sent_bytes_app. simpl. unfold exception_frame.
    list_norm. reflexivity. }
  split.
  { rewrite decode_exception_frame by lia. reflexivity. }
  split.
  - intros H. unfold c_string in H. fold text in H.
    apply (f_equal list_byte_of_string) in H.
    rewrite list_byte_of_string_of_list_byte in H. rewrite <- H.
    apply until_nul_no_nul.
  - intros H. unfold c_string, c_str.
    rewrite (until_nul_c_str _ H). apply string_of_list_byte_of_string.
Qed.

(** ** The registered connect function *)

(** X12: called with a url, a port, a key, a logging flag and further
    arguments, [rpc.Connect] is [RPCClientConnect] on the first four, the
    port narrowed to an [int], with exactly the further arguments as
    initial sequence: on a reachable listener that accepts, those are the
    arguments the session initialisation is run with, on an Endpoint that
    records ["client:"] followed by the key and the key of the server; when
    the initialisation returns, the module returned is the session module
    over that Endpoint, and when it raises, the Endpoint is torn down and
    the error passes.  A first argument that is not a string makes the call
    fail before anything happens. *)
Theorem X12_rpc_connect_forwards_the_rest url port key enable_logging extra
    w c l rk rest :
  reachable w = true ->
  Z.of_nat (String.length key) + 7 <= INT_MAX ->
  w_inbox w = c ++ l ++ rk ++ rest ->
  length c = 4%nat -> length l = 4%nat ->
  bytes_int c = kRPCMagic -> bytes_int l = Z.of_nat (length rk) ->
  let args := AnyStr url :: AnyInt port :: AnyStr key ::
              AnyBool enable_logging :: extra in
  (exists w6 endpt,
     name_ endpt = ("client:" ++ key)%string /\
     remote_key_ endpt = string_of_list_byte rk /\
     w_inbox w6 = rest /\
     (forall w7, InitRemoteSession endpt extra w6 = (w7, inr tt) ->
                 rpc_Connect args w =
                   (w7, inr (CreateRPCSessionModule
                               (CreateClientSession endpt)))) /\
     (forall w7 e, InitRemoteSession endpt extra w6 = (w7, inl e) ->
                   rpc_Connect args w =
                     (fst (RPCEndpoint_dtor endpt w7), inl e))) /\
  rpc_Connect args w =
    RPCClientConnect url (to_int port) key enable_logging extra w /\
  (forall a others w0,
     (forall s, a <> AnyStr s) ->
     rpc_Connect (a :: others) w0 = (w0, inl (CastError 0))).
Proof.
  intros HR HK HI HC HL Hcode Hlen args.
  assert (Hargs : rpc_Connect args w =
                  RPCClientConnect url (to_int port) key enable_logging
                                   extra w) by reflexivity.
  split; [| split; [exact Hargs |]].
  - destruct (connect_accepted url (to_int port) ("client:" ++ key)
                enable_logging extra w c l rk rest HR
                ltac:(simpl String.length; lia) HI HC HL Hcode Hlen)
      as (w6 & Sm & Sl & Sk & Rc & Rl & Rk & _ & _ & _ & _ & _ & _ & _
          & _ & Hib & Hrun).
    exists w6,
      (RPCEndpoint_Create
         (make_SockChannel (mkSockChannel (mkSock (w_fd w))))
         ("client:" ++ key) (string_of_list_byte rk)).
    split; [reflexivity |]. split; [reflexivity |]. split; [exact Hib |].
    rewrite Hargs. unfold RPCClientConnect. cbv zeta in Hrun.
    split; [intros w7 H | intros w7 e H].
    + erewrite bind_run; [reflexivity |].
      rewrite Hrun. now apply init_outcome.
    + erewrite bind_fail; [reflexivity |].
      rewrite Hrun. now apply init_outcome.
  - intros a others w0 Ha. unfold rpc_Connect, bind, cast_string, arg.
    simpl nth. destruct a; try reflexivity. exfalso. eapply Ha. reflexivity.
Qed.

(** ** The request on the wire *)

Lemma app_eq_length_inv {A} (a b x y : list A) :
  length a = length b -> a ++ x = b ++ y -> a = b /\ x = y.
Proof.
  revert b. induction a as [| h a IH]; intros [| h' b] L H;
    try discriminate L.
  - auto.
  - simpl in *. inversion H; subst. inversion L as [L'].
    destruct (IH b L' H2) as [-> ->]. auto.
Qed.

(** X13: the request [RPCConnect] sends can be read back in one way only:
    if the request for one key, followed by anything, is the request for
    another key followed by anything, then the keys are the same and so is
    what follows; in particular two different keys never give the same
    request. *)
Theorem X13_request_determines_key (k1 k2 : string) (r1 r2 : list byte) :
  Z.of_nat (String.length k1) <= INT_MAX ->
  Z.of_nat (String.length k2) <= INT_MAX ->
  handshake_request k1 ++ r1 = handshake_request k2 ++ r2 ->
  k1 = k2 /\ r1 = r2.
Proof.
  intros H1 H2 H. unfold handshake_request in H.
  rewrite <- !app_assoc in H. apply app_inv_head in H.
  apply app_eq_length_inv in H as [Hlen H]; [| reflexivity].
  apply (f_equal bytes_int) in Hlen.
  rewrite !bytes_int_int_bytes in Hlen by lia.
  apply app_eq_length_inv in H as [Hk Hr].
  - split; [| exact Hr]. apply (f_equal string_of_list_byte) in Hk.
    now rewrite !string_of_list_byte_of_string in Hk.
  - rewrite !length_list_byte_of_string. lia.
Qed.

End RPCSocketImpl.

(** * Examples *)

Lemma sample_init_appends : forall e a, appends (sample_init e a).
Proof. intros e a w. exists []. simpl. now rewrite app_nil_r. Qed.

(** The server accepts the key ["k"] and announces the key ["ok"]. *)
Lemma C1_connect_accepted_witness :
  let w := sample_listener (int_bytes sample_magic ++ int_bytes 2 ++
                            [x6f; x6b] ++ []) in
  reachable w = true /\
  Z.of_nat (String.length "k") <= INT_MAX /\
  bytes_int (int_bytes sample_magic) = sample_magic /\
  bytes_int (int_bytes 2) = Z.of_nat (length [x6f; x6b]) /\
  exists w6 Sm Sl Sk Rc Rl Rk endpt,
    connected_after "localhost" 9090 w w6
      (map EvSend Sm ++ map EvSend Sl ++ map EvSend Sk ++
       map EvRecv Rc ++ map EvRecv Rl ++ map EvRecv Rk) /\
    concat Rc = int_bytes sample_magic /\ concat Rl = int_bytes 2 /\
    concat Rk = [x6f; x6b] /\
    w_inbox w6 = [] /\
    channel_ endpt = make_SockChannel (mkSockChannel (mkSock (w_fd w))) /\
    name_ endpt = "k"%string /\
    remote_key_ endpt = string_of_list_byte [x6f; x6b] /\
    (forall w7, sample_init endpt [AnyInt 1] w6 = (w7, inr tt) ->
                RPCConnect sample_magic sample_init sample_AsString
                           "localhost" 9090 "k" false [AnyInt 1] w =
                  (w7, inr endpt)) /\
    (forall w7 e, sample_init endpt [AnyInt 1] w6 = (w7, inl e) ->
                  RPCConnect sample_magic sample_init sample_AsString
                             "localhost" 9090 "k" false [AnyInt 1] w =
                    (fst (SockChannel_dtor (mkSockChannel (mkSock (w_fd w)))
                                           w7),
                     inl e)).
Proof.
  intros w.
  split; [reflexivity |]. split; [unfold INT_MAX; simpl; lia |].
  split; [reflexivity |]. split; [reflexivity |].
  apply (C1_connect_accepted sample_magic sample_init sample_AsString
           "localhost" 9090 "k" false [AnyInt 1] w (int_bytes sample_magic)
           (int_bytes 2) [x6f; x6b] []); try reflexivity.
  unfold INT_MAX; simpl; lia.
Defined.

(** The server answers MAGIC+2: it knows no such key. *)
Lemma C2_connect_rejected_witness :
  let w := sample_listener (int_bytes (sample_magic + 2) ++ []) in
  let r := RPCConnect sample_magic sample_init sample_AsString
                      "localhost" 9090 "k" false [] w in
  reachable w = true /\
  Z.of_nat (String.length "k") <= INT_MAX /\
  bytes_int (int_bytes (sample_magic + 2)) <> sample_magic /\
  w_state (fst r) = Closed /\
  snd r = inl (Fatal "URL localhost:9090 cannot find server that matches key=k").
Proof.
  intros w r.
  assert (HK : Z.of_nat (String.length "k") <= INT_MAX)
    by (unfold INT_MAX; simpl; lia).
  assert (Hc : bytes_int (int_bytes (sample_magic + 2)) <> sample_magic)
    by (vm_compute; discriminate).
  split; [reflexivity |]. split; [exact HK |]. split; [exact Hc |].
  destruct (C2_connect_rejected sample_magic sample_init sample_AsString
              "localhost" 9090 "k" false [] w
              (int_bytes (sample_magic + 2)) []
              eq_refl HK eq_refl eq_refl Hc)
    as (Sm & Sl & Sk & R & Hst & _ & _ & _ & H2 & _).
  split; [exact Hst |]. exact (H2 eq_refl).
Defined.

(** The request for the key ["k"] leaves in five primitive sends before
    anything is received. *)
Lemma C3_connect_sends_request_first_witness :
  let w := sample_listener (int_bytes sample_magic ++ []) in
  reachable w = true /\
  Z.of_nat (String.length "k") <= INT_MAX /\
  exists Sm Sl Sk R evs,
    w_trace (fst (RPCConnect sample_magic sample_init sample_AsString
                             "localhost" 9090 "k" false [] w)) =
      w_trace w ++
      EvCreate (w_fd w) :: EvConnect "localhost" 9090 true ::
      map EvSend Sm ++ map EvSend Sl ++ map EvSend Sk ++
      map EvRecv R ++ evs /\
    concat Sm = int_bytes sample_magic /\
    concat Sl = int_bytes (Z.of_nat (String.length "k")) /\
    concat Sk = list_byte_of_string "k" /\
    length (concat Sk) = String.length "k" /\
    concat R = int_bytes sample_magic /\
    Forall (fun x => x <> []) (Sm ++ Sl ++ Sk ++ R).
Proof.
  intros w.
  assert (HK : Z.of_nat (String.length "k") <= INT_MAX)
    by (unfold INT_MAX; simpl; lia).
  split; [reflexivity |]. split; [exact HK |].
  exact (C3_connect_sends_request_first sample_magic sample_init
           sample_AsString "localhost" 9090 "k" false [] w
           (int_bytes sample_magic) []
           eq_refl HK eq_refl eq_refl sample_init_appends).
Defined.

(** The message ["overflow"] on a connected descriptor. *)
Lemma C4_exception_frame_roundtrip_witness :
  let w := sample_connection [] [Upto 99] in
  let r := rpc_ReturnException [x05] 3 "overflow" w in
  usable (mkSock 3) w = true /\
  snd r = inr tt /\
  sent_bytes (w_trace (fst r)) =
    exception_frame [x05] (list_byte_of_string "overflow") /\
  decode_exception [x05] (sent_bytes (w_trace (fst r))) = Some "overflow"%string.
Proof.
  intros w r.
  assert (Hlen : Z.of_nat (String.length "overflow") < 2 ^ 64)
    by (simpl; lia).
  destruct (C4_exception_frame_roundtrip [x05] 3 "overflow" w
              eq_refl eq_refl eq_refl Hlen) as (H1 & _ & H3 & H4).
  split; [reflexivity |]. split; [exact H1 |].
  fold r in H3. simpl sent_bytes at 2 in H3. simpl app in H3.
  split; [exact H3 |]. rewrite H3. exact H4.
Defined.

(** A message with a NUL character in the middle loses its tail: the frame
    written for ["a\000b"] decodes to ["a"]. *)
Lemma C4_counterexample :
  let msg := String "a" (String "000" (String "b" EmptyString)) in
  let w := sample_connection [] [] in
  let r := rpc_ReturnException [x05] 3 msg w in
  usable (mkSock 3) w = true /\
  snd r = inr tt /\
  decode_exception [x05] (sent_bytes (w_trace (fst r))) = Some "a"%string /\
  decode_exception [x05] (sent_bytes (w_trace (fst r))) <> Some msg.
Proof.
  intros msg w r.
  split; [reflexivity |]. split; [reflexivity |].
  split; [reflexivity |]. vm_compute. discriminate.
Qed.

(** A send of two bytes and a receive of up to four on a connected
    descriptor. *)
Lemma C6_sock_channel_transfers_witness :
  let c := mkSockChannel (mkSock 3) in
  let w := sample_connection [x01; x02; x03] [Upto 0] in
  Z.of_nat (length [x0a; x0b]) < 2 ^ 64 /\ 0 <= 4 < 2 ^ 64 /\
  SockChannel_Send c [x0a; x0b] w =
    (emit (EvSend [x0a]) (set_script [] w), inr 1) /\
  exists w' n,
    TCPSocket_Send (sock_ c) [x0a; x0b] w = (w', inr n) /\
    (n = -1 /\
     SockChannel_Send c [x0a; x0b] w =
       (w', inl (SocketError "SockChannel::Send")) /\
     sent_bytes (w_trace w') = sent_bytes (w_trace w) \/
     0 <= n <= Z.of_nat (length [x0a; x0b]) /\
     SockChannel_Send c [x0a; x0b] w = (w', inr n) /\
     w_trace w' = w_trace w ++ [EvSend (firstn (Z.to_nat n) [x0a; x0b])]).
Proof.
  intros c w.
  assert (Hd : Z.of_nat (length [x0a; x0b]) < 2 ^ 64) by (simpl; lia).
  assert (Hs : 0 <= 4 < 2 ^ 64) by lia.
  split; [exact Hd |]. split; [exact Hs |]. split; [reflexivity |].
  exact (proj1 (C6_sock_channel_transfers c [x0a; x0b] 4 w Hd Hs)).
Defined.

(** The client key ["abc"] travels as ["client:abc"]. *)
Lemma C8_client_key_prefix_witness :
  let w := sample_listener (int_bytes sample_magic ++ []) in
  reachable w = true /\
  Z.of_nat (String.length "abc") + 7 <= INT_MAX /\
  exists Sm Sl Sk R evs,
    w_trace (fst (RPCClientConnect sample_magic sample_init sample_AsString
                                   "localhost" 9090 "abc" false [] w)) =
      w_trace w ++
      EvCreate (w_fd w) :: EvConnect "localhost" 9090 true ::
      map EvSend Sm ++ map EvSend Sl ++ map EvSend Sk ++
      map EvRecv R ++ evs /\
    concat Sm = int_bytes sample_magic /\
    concat Sl = int_bytes 10 /\
    string_of_list_byte (concat Sk) = "client:abc"%string /\
    concat Sk = list_byte_of_string "client:" ++ list_byte_of_string "abc" /\
    concat R = int_bytes sample_magic /\
    Forall (fun x => x <> []) (Sm ++ Sl ++ Sk ++ R).
Proof.
  intros w.
  assert (HK : Z.of_nat (String.length "abc") + 7 <= INT_MAX)
    by (unfold INT_MAX; simpl; lia).
  split; [reflexivity |]. split; [exact HK |].
  exact (C8_client_key_prefix sample_magic sample_init sample_AsString
           "localhost" 9090 "abc" false [] w (int_bytes sample_magic) []
           eq_refl HK eq_refl eq_refl sample_init_appends).
Defined.

(** An empty local key, and a server that announces an empty key. *)
Lemma C9_empty_keys_witness :
  let w := sample_listener (int_bytes sample_magic ++ int_bytes 0 ++ []) in
  reachable w = true /\
  bytes_int (int_bytes 0) = 0 /\
  (exists Sm Sl R evs,
     w_trace (fst (RPCConnect sample_magic sample_init sample_AsString
                              "localhost" 9090 "" false [] w)) =
       w_trace w ++
       EvCreate (w_fd w) :: EvConnect "localhost" 9090 true ::
       map EvSend Sm ++ map EvSend Sl ++ map EvRecv R ++ evs /\
     concat Sm = int_bytes sample_magic /\ concat Sl = int_bytes 0 /\
     concat R = int_bytes sample_magic /\ R <> []) /\
  (exists w6 Sm Sl Sk Rc Rl endpt,
     connected_after "localhost" 9090 w w6
       (map EvSend Sm ++ map EvSend Sl ++ map EvSend Sk ++
        map EvRecv Rc ++ map EvRecv Rl) /\
     concat Rc = int_bytes sample_magic /\ concat Rl = int_bytes 0 /\
     w_inbox w6 = [] /\
     endpt =
       RPCEndpoint_Create
         (make_SockChannel (mkSockChannel (mkSock (w_fd w)))) "k" "" /\
     (forall w7, sample_init endpt [] w6 = (w7, inr tt) ->
                 RPCConnect sample_magic sample_init sample_AsString
                            "localhost" 9090 "k" false [] w =
                   (w7, inr endpt)) /\
     (forall w7 e, sample_init endpt [] w6 = (w7, inl e) ->
                   RPCConnect sample_magic sample_init sample_AsString
                              "localhost" 9090 "k" false [] w =
                     (fst (RPCEndpoint_dtor endpt w7), inl e))).
Proof.
  intros w.
  pose proof (C9_empty_keys sample_magic sample_init sample_AsString
                "localhost" 9090 false []) as [H1 H2].
  split; [reflexivity |]. split; [reflexivity |].
  split.
  - exact (H1 w (int_bytes sample_magic) (int_bytes 0 ++ [])
              eq_refl eq_refl eq_refl sample_init_appends).
  - apply (H2 "k"%string w (int_bytes sample_magic) (int_bytes 0) []);
      try reflexivity.
    unfold INT_MAX; simpl; lia.
Defined.

(** A connect that returns: the listener accepted the key ["k"]. *)
Lemma X1_connect_returns_only_if_accepted_witness :
  let w := sample_listener (int_bytes sample_magic ++ int_bytes 2 ++
                            [x6f; x6b]) in
  let r := RPCConnect sample_magic sample_init sample_AsString
                      "localhost" 9090 "k" false [] w in
  Z.of_nat (String.length "k") <= INT_MAX /\
  (exists endpt, r = (fst r, inr endpt)) /\
  exists c, firstn 4 (w_inbox w) = c /\ bytes_int c = sample_magic.
Proof.
  intros w r.
  assert (HK : Z.of_nat (String.length "k") <= INT_MAX)
    by (unfold INT_MAX; simpl; lia).
  assert (Hrun : r = (fst r,
                      inr (RPCEndpoint_Create
                             (make_SockChannel (mkSockChannel (mkSock 3)))
                             "k" "ok"))).
  { vm_compute. reflexivity. }
  split; [exact HK |]. split; [eexists; exact Hrun |].
  destruct (X1_connect_returns_only_if_accepted sample_magic sample_init
              sample_AsString "localhost" 9090 "k" false [] w (fst r) _
              HK Hrun)
    as (w6 & c & l & rk & Hc & _ & Hcode & _ & _ & _ & Hi & _).
  exists c. split; [| exact Hcode].
  rewrite Hi. now apply firstn_length_app.
Defined.

(** A peer that does not accept, and a name without an address. *)
Lemma X2_connect_refused_witness :
  let w := mkWorld true 3 Unused false (Some false) [] [] [] in
  let w0 := mkWorld false 3 Unused false (Some false) [] [] [] in
  w_state w = Unused /\ w_fd w <> INVALID_SOCKET /\ w_accepts w = false /\
  RPCConnect sample_magic sample_init sample_AsString "localhost" 9090 "k"
             false [] w =
    (emit (EvConnect "localhost" 9090 false)
          (emit (EvCreate 3) (set_state Created w)),
     inl (CheckFailed "Connect to 127.0.0.1:9090 failed")) /\
  RPCConnect sample_magic sample_init sample_AsString "nowhere" 9090 "k"
             false [] w0 =
    (w0, inl (AddressError "nowhere")).
Proof.
  intros w w0.
  assert (Hfd : w_fd w <> INVALID_SOCKET) by discriminate.
  split; [reflexivity |]. split; [exact Hfd |]. split; [reflexivity |].
  split.
  - exact (proj1 (X2_connect_refused sample_magic sample_init sample_AsString
                    "localhost" 9090 "k" false [] w eq_refl Hfd eq_refl)).
  - exact (proj1 (X2_connect_refused sample_magic sample_init sample_AsString
                    "nowhere" 9090 "k" false [] w0 eq_refl Hfd eq_refl)).
Defined.

(** A server that sends two bytes and hangs up. *)
Lemma X3_connect_answer_cut_short_witness :
  let w := sample_listener [x71; xf2] in
  reachable w = true /\ (length (w_inbox w) < 4)%nat /\
  exists w',
    RPCConnect sample_magic sample_init sample_AsString
               "localhost" 9090 "k" false [] w =
      (w', inl (CheckFailed
                  "sock.RecvAll(&code, sizeof(code)) == sizeof(code)")) /\
    w_state w' = Connected /\ w_inbox w' = [] /\
    sent_bytes (w_trace w') =
      sent_bytes (w_trace w) ++ handshake_request sample_magic "k" /\
    received_bytes (w_trace w') = received_bytes (w_trace w) ++ w_inbox w.
Proof.
  intros w.
  assert (HK : Z.of_nat (String.length "k") <= INT_MAX)
    by (unfold INT_MAX; simpl; lia).
  assert (Hs : (length (w_inbox w) < 4)%nat) by (simpl; lia).
  split; [reflexivity |]. split; [exact Hs |].
  exact (X3_connect_answer_cut_short sample_magic sample_init sample_AsString
           "localhost" 9090 "k" false [] w eq_refl HK Hs).
Defined.

(** A server that announces the key length -1. *)
Lemma X4_connect_negative_key_length_witness :
  let w := sample_listener (int_bytes sample_magic ++ int_bytes (-1) ++
                            [x01]) in
  reachable w = true /\ bytes_int (int_bytes (-1)) < 0 /\
  exists w',
    RPCConnect sample_magic sample_init sample_AsString
               "localhost" 9090 "k" false [] w =
      (w', inl LengthError) /\
    w_state w' = Connected /\ w_inbox w' = [x01] /\
    sent_bytes (w_trace w') =
      sent_bytes (w_trace w) ++ handshake_request sample_magic "k".
Proof.
  intros w.
  assert (HK : Z.of_nat (String.length "k") <= INT_MAX)
    by (unfold INT_MAX; simpl; lia).
  assert (Hn : bytes_int (int_bytes (-1)) < 0) by reflexivity.
  split; [reflexivity |]. split; [exact Hn |].
  exact (X4_connect_negative_key_length sample_magic sample_init
           sample_AsString "localhost" 9090 "k" false [] w
           (int_bytes sample_magic) (int_bytes (-1)) [x01]
           eq_refl HK eq_refl eq_refl eq_refl eq_refl Hn).
Defined.

(** A server that announces five key bytes and sends two. *)
Lemma X5_connect_remote_key_cut_short_witness :
  let w := sample_listener (int_bytes sample_magic ++ int_bytes 5 ++
                            [x6f; x6b]) in
  reachable w = true /\
  Z.of_nat (length [x6f; x6b]) < bytes_int (int_bytes 5) /\
  exists w',
    RPCConnect sample_magic sample_init sample_AsString
               "localhost" 9090 "k" false [] w =
      (w', inl (CheckFailed
                  "sock.RecvAll(&remote_key[0], keylen) == keylen")) /\
    w_state w' = Connected /\ w_inbox w' = [] /\
    sent_bytes (w_trace w') =
      sent_bytes (w_trace w) ++ handshake_request sample_magic "k" /\
    received_bytes (w_trace w') = received_bytes (w_trace w) ++ w_inbox w.
Proof.
  intros w.
  assert (HK : Z.of_nat (String.length "k") <= INT_MAX)
    by (unfold INT_MAX; simpl; lia).
  assert (Hn : Z.of_nat (length [x6f; x6b]) < bytes_int (int_bytes 5))
    by reflexivity.
  split; [reflexivity |]. split; [exact Hn |].
  exact (X5_connect_remote_key_cut_short sample_magic sample_init
           sample_AsString "localhost" 9090 "k" false [] w
           (int_bytes sample_magic) (int_bytes 5) [x6f; x6b]
           eq_refl HK eq_refl eq_refl eq_refl eq_refl Hn).
Defined.

(** A server that writes its answer as raw ints. *)
Lemma X6_connect_understands_raw_ints_witness :
  let w := sample_listener (int_bytes sample_magic ++
                            int_bytes (Z.of_nat (length [x6f; x6b])) ++
                            [x6f; x6b] ++ [x07]) in
  reachable w = true /\ - 2 ^ 31 <= sample_magic <= INT_MAX /\
  exists w6 endpt,
    endpt =
      RPCEndpoint_Create (make_SockChannel (mkSockChannel (mkSock (w_fd w))))
                         "k" (string_of_list_byte [x6f; x6b]) /\
    w_inbox w6 = [x07] /\ w_state w6 = Connected /\
    sent_bytes (w_trace w6) =
      sent_bytes (w_trace w) ++ handshake_request sample_magic "k" /\
    (forall w7, sample_init endpt [] w6 = (w7, inr tt) ->
                RPCConnect sample_magic sample_init sample_AsString
                           "localhost" 9090 "k" false [] w =
                  (w7, inr endpt)) /\
    (forall w7 e, sample_init endpt [] w6 = (w7, inl e) ->
                  RPCConnect sample_magic sample_init sample_AsString
                             "localhost" 9090 "k" false [] w =
                    (fst (RPCEndpoint_dtor endpt w7), inl e)).
Proof.
  intros w.
  assert (HK : Z.of_nat (String.length "k") <= INT_MAX)
    by (unfold INT_MAX; simpl; lia).
  assert (HM : - 2 ^ 31 <= sample_magic <= INT_MAX)
    by (unfold sample_magic, INT_MAX; lia).
  assert (Hr : Z.of_nat (length [x6f; x6b]) <= INT_MAX)
    by (unfold INT_MAX; simpl; lia).
  split; [reflexivity |]. split; [exact HM |].
  exact (proj2 (X6_connect_understands_raw_ints sample_magic sample_init
                  sample_AsString "localhost" 9090 "k" false [] w
                  [x6f; x6b] [x07] eq_refl HK HM Hr eq_refl)).
Defined.

(** The module a client connect returns for the key ["abc"]. *)
Lemma X7_client_connect_outcome_witness :
  let w := sample_listener (int_bytes sample_magic ++ int_bytes 0) in
  let r := RPCClientConnect sample_magic sample_init sample_AsString
                            "localhost" 9090 "abc" false [] w in
  Z.of_nat (String.length "abc") + 7 <= INT_MAX /\
  (exists m, r = (fst r, inr m)) /\
  exists endpt,
    name_ endpt = "client:abc"%string /\
    snd r = inr (CreateRPCSessionModule (CreateClientSession endpt)).
Proof.
  intros w r.
  assert (HK : Z.of_nat (String.length "abc") + 7 <= INT_MAX)
    by (unfold INT_MAX; simpl; lia).
  assert (Hrun : r = (fst r,
                      inr (CreateRPCSessionModule
                             (CreateClientSession
                                (RPCEndpoint_Create
                                   (make_SockChannel
                                      (mkSockChannel (mkSock 3)))
                                   "client:abc" ""))))).
  { vm_compute. reflexivity. }
  split; [exact HK |]. split; [eexists; exact Hrun |].
  destruct (proj1 (X7_client_connect_outcome sample_magic sample_init
                     sample_AsString "localhost" 9090 "abc" false [] w (fst r)
                     HK) _ Hrun)
    as (w6 & c & l & rk & endpt & _ & _ & _ & _ & _ & _ & Hn & _ & _ & Hm).
  exists endpt. split; [exact Hn |]. rewrite Hrun. cbn [snd]. now rewrite Hm.
Defined.

(** A send after the server answered MAGIC+1. *)
Lemma X8_io_after_rejected_connect_witness :
  let w := sample_listener (int_bytes (sample_magic + 1) ++ [x09]) in
  let w' := fst (RPCConnect sample_magic sample_init sample_AsString
                            "localhost" 9090 "k" false [] w) in
  let ch := mkSockChannel (mkSock 3) in
  reachable w = true /\
  bytes_int (int_bytes (sample_magic + 1)) <> sample_magic /\
  SockChannel_Send ch [x01] w' =
    (emit EvSendFault w', inl (SocketError "SockChannel::Send")) /\
  SockChannel_Recv ch 1 w' =
    (emit EvRecvFault w', inl (SocketError "SockChannel::Recv")) /\
  sent_bytes (w_trace (emit EvSendFault w')) = sent_bytes (w_trace w') /\
  w_inbox (emit EvRecvFault w') = [x09].
Proof.
  intros w w' ch.
  assert (HK : Z.of_nat (String.length "k") <= INT_MAX)
    by (unfold INT_MAX; simpl; lia).
  assert (Hc : bytes_int (int_bytes (sample_magic + 1)) <> sample_magic)
    by (vm_compute; discriminate).
  split; [reflexivity |]. split; [exact Hc |].
  exact (X8_io_after_rejected_connect sample_magic sample_init sample_AsString
           "localhost" 9090 "k" false [] w (int_bytes (sample_magic + 1))
           [x09] ch [x01] 1 eq_refl HK eq_refl eq_refl Hc).
Defined.

(** The teardown of a channel over the connected descriptor 3. *)
Lemma X9_teardown_closes_witness :
  let w := sample_connection [x01] [] in
  let c := mkSockChannel (mkSock 3) in
  let w' := fst (SockChannel_dtor c w) in
  sockfd (sock_ c) = w_fd w /\ w_fd w <> INVALID_SOCKET /\
  w_check w = Some false /\
  w' = closed w /\ w_state w' = Closed /\ w_inbox w' = w_inbox w /\
  sent_bytes (w_trace w') = sent_bytes (w_trace w) /\
  received_bytes (w_trace w') = received_bytes (w_trace w) /\
  SockChannel_Send c [x02] w' =
    (emit EvSendFault w', inl (SocketError "SockChannel::Send")) /\
  SockChannel_Recv c 1 w' =
    (emit EvRecvFault w', inl (SocketError "SockChannel::Recv")).
Proof.
  intros w c w'.
  assert (Hfd : w_fd w <> INVALID_SOCKET) by discriminate.
  split; [reflexivity |]. split; [exact Hfd |]. split; [reflexivity |].
  exact (X9_teardown_closes c c [x02] 1 w eq_refl Hfd eq_refl).
Defined.

(** A write on a descriptor that is not connected returns 2^64-1. *)
Lemma X10_handler_returns_fault_as_count_witness :
  let h := mkHandler (mkSock 4) in
  let w := sample_connection [] [] in
  Z.of_nat (length [x01; x02]) < 2 ^ 64 - 1 /\ 0 <= 1 < 2 ^ 64 - 1 /\
  SimpleSockHandler_Write h [x01; x02] w =
    (emit EvSendFault w, inr (2 ^ 64 - 1)) /\
  exists w' n,
    SimpleSockHandler_Write h [x01; x02] w = (w', inr n) /\
    (n = 2 ^ 64 - 1 /\
     SockChannel_Send (mkSockChannel (handler_sock_ h)) [x01; x02] w =
       (w', inl (SocketError "SockChannel::Send")) /\
     sent_bytes (w_trace w') = sent_bytes (w_trace w) \/
     0 <= n <= Z.of_nat (length [x01; x02]) /\
     SockChannel_Send (mkSockChannel (handler_sock_ h)) [x01; x02] w =
       (w', inr n) /\
     w_trace w' = w_trace w ++ [EvSend (firstn (Z.to_nat n) [x01; x02])]).
Proof.
  intros h w.
  assert (Hd : Z.of_nat (length [x01; x02]) < 2 ^ 64 - 1) by (simpl; lia).
  assert (Hs : 0 <= 1 < 2 ^ 64 - 1) by lia.
  split; [exact Hd |]. split; [exact Hs |]. split; [reflexivity |].
  exact (proj1 (X10_handler_returns_fault_as_count h [x01; x02] 1 w Hd Hs)).
Defined.

(** The message ["a\000b"] arrives as ["a"]. *)
Lemma X11_exception_text_is_c_string_witness :
  let msg := String "a" (String "000" (String "b" EmptyString)) in
  let w := sample_connection [] [] in
  let r := rpc_ReturnException [x05] 3 msg w in
  usable (mkSock 3) w = true /\
  Z.of_nat (String.length msg) < 2 ^ 64 /\
  snd r = inr tt /\
  decode_exception [x05] (exception_frame [x05] (until_nul (c_str msg))) =
    Some "a"%string /\
  c_string msg <> msg.
Proof.
  intros msg w r.
  assert (Hl : Z.of_nat (String.length msg) < 2 ^ 64) by (simpl; lia).
  destruct (X11_exception_text_is_c_string [x05] 3 msg w
              eq_refl eq_refl Hl) as (H1 & _ & H3 & H4).
  split; [reflexivity |]. split; [exact Hl |]. split; [exact H1 |].
  split; [exact H3 |].
  intros H. apply H4 in H. discriminate H.
Defined.

(** [rpc.Connect] with two further arguments. *)
Lemma X12_rpc_connect_forwards_the_rest_witness :
  let w := sample_listener (int_bytes sample_magic ++ int_bytes 2 ++
                            [x6f; x6b] ++ []) in
  let args := [AnyStr "localhost"; AnyInt 9090; AnyStr "k"; AnyBool false;
               AnyInt 7; AnyStr "x"] in
  reachable w = true /\
  Z.of_nat (String.length "k") + 7 <= INT_MAX /\
  exists w6 endpt,
    name_ endpt = "client:k"%string /\
    remote_key_ endpt = "ok"%string /\
    w_inbox w6 = [] /\
    (forall w7, sample_init endpt [AnyInt 7; AnyStr "x"] w6 = (w7, inr tt) ->
                rpc_Connect sample_magic sample_init sample_AsString args w =
                  (w7, inr (CreateRPCSessionModule
                              (CreateClientSession endpt)))) /\
    (forall w7 e, sample_init endpt [AnyInt 7; AnyStr "x"] w6 = (w7, inl e) ->
                  rpc_Connect sample_magic sample_init sample_AsString args w =
                    (fst (RPCEndpoint_dtor endpt w7), inl e)).
Proof.
  intros w args.
  assert (HK : Z.of_nat (String.length "k") + 7 <= INT_MAX)
    by (unfold INT_MAX; simpl; lia).
  split; [reflexivity |]. split; [exact HK |].
  exact (proj1 (X12_rpc_connect_forwards_the_rest sample_magic sample_init
                  sample_AsString "localhost" 9090 "k" false
                  [AnyInt 7; AnyStr "x"] w
                  (int_bytes sample_magic) (int_bytes 2) [x6f; x6b] []
                  eq_refl HK eq_refl eq_refl eq_refl eq_refl eq_refl)).
Defined.

(** The request for ["ab"] is not the request for ["a"] followed by the
    byte of ["b"]. *)
Lemma X13_request_determines_key_witness :
  Z.of_nat (String.length "a") <= INT_MAX /\
  Z.of_nat (String.length "ab") <= INT_MAX /\
  (handshake_request sample_magic "a" ++ [x62] =
   handshake_request sample_magic "a" ++ [x62] ->
   "a"%string = "a"%string /\ [x62] = [x62]) /\
  handshake_request sample_magic "ab" ++ [] <>
  handshake_request sample_magic "a" ++ [x62].
Proof.
  assert (H1 : Z.of_nat (String.length "a") <= INT_MAX)
    by (unfold INT_MAX; simpl; lia).
  assert (H2 : Z.of_nat (String.length "ab") <= INT_MAX)
    by (unfold INT_MAX; simpl; lia).
  split; [exact H1 |]. split; [exact H2 |].
  split.
  - exact (X13_request_determines_key sample_magic "a" "a" [x62] [x62]
             H1 H1).
  - intros H.
    destruct (X13_request_determines_key sample_magic "ab" "a" [] [x62]
                H2 H1 H) as [Hk _].
    discriminate Hk.
Defined.

(** A server loop on the connected descriptor 3. *)
Lemma X14_server_loop_closes_descriptor_witness :
  let w := sample_connection [x01; x02] [] in
  let endpt :=
    RPCEndpoint_Create (make_SockChannel (mkSockChannel (mkSock 3)))
                       "SockServerLoop" "" in
  let r := RPCServerLoop_sockfd sample_loop 3 w in
  w_fd (fst (sample_loop endpt w)) = 3 /\ 3 <> INVALID_SOCKET /\
  w_check (fst (sample_loop endpt w)) = Some false /\
  snd r = inr tt /\ w_state (fst r) = Closed /\
  w_trace (fst r) = [EvRecv [x01]; EvClose 3] /\
  SockChannel_Send (mkSockChannel (mkSock 3)) [x0a] (fst r) =
    (emit EvSendFault (fst r), inl (SocketError "SockChannel::Send")).
Proof.
  intros w endpt r.
  assert (Hv : 3 <> INVALID_SOCKET) by discriminate.
  destruct (X14_server_loop_closes_descriptor sample_loop 3 w
              (mkSockChannel (mkSock 3)) [x0a] 1 eq_refl Hv eq_refl)
    as (H1 & H2 & H3 & H4 & _).
  split; [reflexivity |]. split; [exact Hv |]. split; [reflexivity |].
  split; [exact H1 |]. split; [exact H2 |]. split; [exact H3 | exact H4].
Defined.

